(** * Rasa NLU: BILOU tagging utilities and the count-vectors featurizer

    A shallow embedding of [rasa/nlu/utils/bilou_utils.py] and
    [rasa/nlu/featurizers/count_vectors_featurizer.py].

    Python values are modelled as follows: [int] as [Z] (indices produced by
    [enumerate] as [nat]), [str] as [string] (ASCII text), [dict] as [gmap]
    filled by successive insertion, [set] as [gset], lists as [list] with
    bounds-checked item assignment, and a call that may raise as a value of
    [result]. *)

From Stdlib Require Import ZArith Lia Ascii.
From stdpp Require Import base option list gmap sets strings sorting.


(** ** Python exceptions as results *)

Inductive exn :=
  TypeError | KeyError | ValueError | IndexError | AttributeError | NotFittedError.

Inductive result (A : Type) :=
| Ok (a : A)
| Raise (e : exn).
Arguments Ok {A} a.
Arguments Raise {A} e.

#[global] Instance result_ret : MRet result := fun _ a => Ok a.
#[global] Instance result_bind : MBind result := fun _ _ f m =>
  match m with
  | Ok a => f a
  | Raise e => Raise e
  end.
#[global] Instance result_fmap : FMap result := fun _ _ f m =>
  match m with
  | Ok a => Ok (f a)
  | Raise e => Raise e
  end.

(** A [for] loop threading a mutable value through a fallible body. *)
Fixpoint foldlM {A B} (f : A → B → result A) (a : A) (l : list B) : result A :=
  match l with
  | [] => Ok a
  | x :: l => a' ← f a x; foldlM f a' l
  end.

(** A list comprehension whose element expression may raise. *)
Fixpoint mapM_result {A B} (f : A → result B) (l : list A) : result (list B) :=
  match l with
  | [] => Ok []
  | x :: l => y ← f x; ys ← mapM_result f l; Ok (y :: ys)
  end.

(** [l[i] = x]: raises [IndexError] outside the list. *)
Definition setitem {A} (l : list A) (i : nat) (x : A) : result (list A) :=
  if decide (i < length l) then Ok (<[i:=x]> l) else Raise IndexError.

(** [d[k]]: raises [KeyError] on a missing key. *)
Definition getitem {V} (d : gmap string V) (k : string) : result V :=
  match d !! k with
  | Some v => Ok v
  | None => Raise KeyError
  end.

Definition enumerate {A} (l : list A) : list (nat * A) := imap pair l.

(** [{k: v for ...}]: entries are inserted in iteration order, so a later
    entry replaces an earlier one with the same key. *)
Definition dict_of `{Countable K} {V} (kvs : list (K * V)) : gmap K V :=
  foldl (fun m kv => <[kv.1 := kv.2]> m) ∅ kvs.

(** [range(lo, hi)] over integers; empty when [hi <= lo]. *)
Definition range (lo hi : Z) : list Z := seqZ lo (hi - lo)%Z.

(** [range(lo, hi)] over list indices. *)
Definition range_nat (lo hi : nat) : list nat := seq lo (hi - lo).

(** Truth value of [message.get(attr)] for a list-valued attribute: [None]
    and the empty list are both false. *)
Definition truthy {A} (o : option (list A)) : bool :=
  match o with
  | Some (_ :: _) => true
  | _ => false
  end.

(** [s[:n]] and [s[n:]]. *)
Fixpoint str_take (n : nat) (s : string) : string :=
  match n, s with
  | S n, String c s => String c (str_take n s)
  | _, _ => ""
  end.
Fixpoint str_drop (n : nat) (s : string) : string :=
  match n, s with
  | S n, String _ s => str_drop n s
  | _, _ => s
  end.

(** ** Data model *)

Record Token := mkToken {
  text : string;
  start : Z;
  end_ : Z
}.

Record SpacyToken := mkSpacyToken { lemma_ : string }.

(** An entity span [(start, end, label)]. *)
Definition Entity : Type := Z * Z * string.

(** An item of a one-dimensional array of Python objects: a number, or a
    sparse matrix, which numpy takes as one object. *)
Inductive ArrayItem :=
| Number (z : Z)
| SparseMatrix (rows : list (list Z)).

#[global] Instance ArrayItem_eq_dec : EqDecision ArrayItem.
Proof. solve_decision. Defined.

(** Feature values written on messages. A sparse matrix is represented by
    its rows (what [toarray] would return); only the tag differs. [Dense] is
    a one-dimensional array, [DenseSeq] a two-dimensional one, [Scalar] an
    array without dimensions (what [squeeze] leaves of an array with one
    entry), [SparseSeqList] a Python list of sparse matrices, and [Objects] a
    one-dimensional array of objects. *)
Inductive Features :=
| Dense (row : list Z)
| SparseRow (row : list Z)
| DenseSeq (rows : list (list Z))
| SparseSeq (rows : list (list Z))
| SparseSeqList (mats : list (list (list Z)))
| Scalar (z : Z)
| Objects (items : list ArrayItem).

#[global] Instance Features_eq_dec : EqDecision Features.
Proof. solve_decision. Defined.

(** The message container: every attribute read by the two modules.
    [message.get(attr)] is [None] for an attribute that was never set.
    [tokens] is the attribute ["tokens"] of the featurizer, which
    [bilou_utils] names [TOKENS_NAMES[TEXT_ATTRIBUTE]], and [bilou_entities]
    is [BILOU_ENTITIES_ATTRIBUTE]. *)
Record Message := mkMessage {
  msg_text : string;
  spacy_doc : option (list SpacyToken);
  tokens : option (list Token);
  intent_tokens : option (list Token);
  response_tokens : option (list Token);
  bilou_entities : option (list string);
  text_features : option Features;
  intent_features : option Features;
  response_features : option Features
}.

(** ** bilou_utils.py *)

Module Bilou.

Definition BILOU_PREFIXES : list string := ["B-"; "I-"; "U-"; "L-"].

Definition entity_name_from_tag (tag : string) : string :=
  if decide (str_take 2 tag ∈ BILOU_PREFIXES) then str_drop 2 tag else tag.

Definition tags_to_ids (message : Message) (tag_id_dict : gmap string Z)
  : result (list Z) :=
  if truthy (bilou_entities message) then
    mapM_result
      (fun _tag =>
         if decide (is_Some (tag_id_dict !! _tag))
         then getitem tag_id_dict _tag
         else getitem tag_id_dict "O")
      (default [] (bilou_entities message))
  else
    match tokens message with
    | None => Raise TypeError
    | Some toks => mapM_result (fun _ => getitem tag_id_dict "O") toks
    end.

Definition remove_bilou_prefixes (tags : list string) : list string :=
  entity_name_from_tag <$> tags.

(** The list fed to [set(...)] in [build_tag_id_dict]. *)
Definition stripped_tags (training_examples : list Message) : list string :=
  example ← training_examples;
  if truthy (bilou_entities example)
  then entity_name_from_tag <$> default [] (bilou_entities example)
  else [].

Definition distinct_tags (training_examples : list Message) : gset string :=
  list_to_set (stripped_tags training_examples) ∖ {["O"]}.

(** [sorted(...)] on strings. *)
Definition sorted (l : list string) : list string := merge_sort String.le l.

(** The dictionary comprehension and the final ["O"] entry, for a given
    iteration order [enum] of the set [distinct_tags]. *)
Definition tag_id_dict_of (enum : list string) : gmap string Z :=
  <["O" := 0%Z]>
    (dict_of
       ('(idx_1, tag) ← enumerate (sorted enum);
        '(idx_2, prefix) ← enumerate BILOU_PREFIXES;
        [(prefix +:+ tag,
          (Z.of_nat idx_1 * Z.of_nat (length BILOU_PREFIXES) + Z.of_nat idx_2 + 1)%Z)])).

Definition build_tag_id_dict (training_examples : list Message) : gmap string Z :=
  tag_id_dict_of (elements (distinct_tags training_examples)).

Definition start_pos_to_token_idx (tokens : list Token) : gmap Z nat :=
  dict_of ((fun it => (start it.2, it.1)) <$> enumerate tokens).

Definition end_pos_to_token_idx (tokens : list Token) : gmap Z nat :=
  dict_of ((fun it => (end_ it.2, it.1)) <$> enumerate tokens).

Definition _handle_entity (end_pos_to_token_idx start_pos_to_token_idx : gmap Z nat)
    (bilou : list string) (entity : Entity) : result (list string) :=
  let '(start_pos, end_pos, label) := entity in
  match start_pos_to_token_idx !! start_pos, end_pos_to_token_idx !! end_pos with
  | Some start_token_idx, Some end_token_idx =>
      if decide (start_token_idx = end_token_idx) then
        setitem bilou start_token_idx ("U-" +:+ label)
      else
        bilou ← setitem bilou start_token_idx ("B-" +:+ label);
        bilou ← foldlM (fun bilou i => setitem bilou i ("I-" +:+ label)) bilou
                  (range_nat (S start_token_idx) end_token_idx);
        setitem bilou end_token_idx ("L-" +:+ label)
  | _, _ => Ok bilou
  end.

Definition _handle_entities (bilou : list string) (entities : list Entity)
    (end_pos_to_token_idx start_pos_to_token_idx : gmap Z nat) : result (list string) :=
  foldlM (_handle_entity end_pos_to_token_idx start_pos_to_token_idx) bilou entities.

Definition _get_entity_positions (entities : list Entity) : gset Z :=
  foldl (fun entity_positions (entity : Entity) =>
           let '(start_pos, end_pos, _) := entity in
           foldl (fun entity_positions i => entity_positions ∪ {[i]})
                 entity_positions (range start_pos end_pos))
        ∅ entities.

(** The inner [for ... else]: [true] when the loop hits [break]. *)
Definition token_hits (entity_positions : gset Z) (token : Token) : bool :=
  bool_decide (Exists (fun i => i ∈ entity_positions) (range (start token) (end_ token))).

Definition _handle_not_an_entity (bilou : list string) (tokens : list Token)
    (entity_positions : gset Z) (missing : string) : result (list string) :=
  foldlM (fun bilou (it : nat * Token) =>
            if token_hits entity_positions it.2 then Ok bilou
            else setitem bilou it.1 missing)
         bilou (enumerate tokens).

Definition bilou_tags_from_offsets_with (tokens : list Token) (entities : list Entity)
    (missing : string) : result (list string) :=
  let start_pos_to_token_idx := start_pos_to_token_idx tokens in
  let end_pos_to_token_idx := end_pos_to_token_idx tokens in
  let bilou := (fun _ => "-") <$> tokens in
  bilou ← _handle_entities bilou entities end_pos_to_token_idx start_pos_to_token_idx;
  let entity_positions := _get_entity_positions entities in
  _handle_not_an_entity bilou tokens entity_positions missing.

(** The call with the default [missing="O"]. *)
Definition bilou_tags_from_offsets (tokens : list Token) (entities : list Entity)
  : result (list string) :=
  bilou_tags_from_offsets_with tokens entities "O".

End Bilou.

(** ** count_vectors_featurizer.py *)

(** *** Text primitives (ASCII)

    The character classes below are those of Python on ASCII text. Beyond
    ASCII, [\w], [\b] and [str.split] know more letters, digits and spaces;
    statements that depend on the classes are made for [ascii_text]. *)

Definition is_ascii (c : ascii) : bool := (nat_of_ascii c <? 128)%nat.

Definition is_digit (c : ascii) : bool :=
  let n := nat_of_ascii c in (48 <=? n)%nat && (n <=? 57)%nat.

(** [\w] on ASCII: letters, digits and the underscore. *)
Definition is_word (c : ascii) : bool :=
  let n := nat_of_ascii c in
  is_digit c || ((65 <=? n)%nat && (n <=? 90)%nat)
  || ((97 <=? n)%nat && (n <=? 122)%nat) || (n =? 95)%nat.

(** [str.isspace] on ASCII: tab to carriage return, the separators 28 to 31
    and the space. *)
Definition is_space (c : ascii) : bool :=
  let n := nat_of_ascii c in
  ((9 <=? n)%nat && (n <=? 13)%nat) || ((28 <=? n)%nat && (n <=? 32)%nat).

Fixpoint str_forallb (p : ascii → bool) (s : string) : bool :=
  match s with
  | EmptyString => true
  | String c s => p c && str_forallb p s
  end.

Definition ascii_text (s : string) : bool := str_forallb is_ascii s.

Fixpoint str_map (f : ascii → ascii) (s : string) : string :=
  match s with
  | EmptyString => EmptyString
  | String c s => String (f c) (str_map f s)
  end.

(** [s.lower()]. *)
Definition lower (s : string) : string :=
  str_map (fun c =>
             let n := nat_of_ascii c in
             if (65 <=? n)%nat && (n <=? 90)%nat then ascii_of_nat (n + 32) else c) s.

(** [needle in hay] on strings. *)
Fixpoint str_contains (needle hay : string) : bool :=
  String.prefix needle hay ||
  match hay with
  | EmptyString => false
  | String _ hay => str_contains needle hay
  end.

(** [sep.join(l)]. *)
Definition join (sep : string) (l : list string) : string := String.concat sep l.

(** The maximal runs of characters satisfying [p], in order; [cur] is the
    run being read. *)
Fixpoint runs_go (p : ascii → bool) (cur : string) (s : string) : list string :=
  match s with
  | EmptyString => if decide (cur = "") then [] else [cur]
  | String c s =>
      if p c then runs_go p (cur +:+ String c "") s
      else (if decide (cur = "") then [] else [cur]) ++ runs_go p "" s
  end.

(** [text.split()]: the maximal runs of non-space characters. *)
Definition split (text : string) : list string :=
  runs_go (fun c => negb (is_space c)) "" text.

(** What [re.sub] puts for a maximal run of word characters: the run is
    matched by [\b[0-9]+\b] exactly when all its characters are digits. *)
Definition number_or_word (run : string) : string :=
  if decide (run = "") then ""
  else if str_forallb is_digit run then "__NUMBER__" else run.

(** [re.sub(r"\b[0-9]+\b", "__NUMBER__", text)]. *)
Fixpoint sub_numbers_go (cur : string) (s : string) : string :=
  match s with
  | EmptyString => number_or_word cur
  | String c s =>
      if is_word c then sub_numbers_go (cur +:+ String c "") s
      else number_or_word cur +:+ String c (sub_numbers_go "" s)
  end.
Definition sub_numbers (text : string) : string := sub_numbers_go "" text.

(** [re.compile(r"(?u)\b\w\w+\b").findall], the default token pattern: the
    maximal runs of word characters that are at least two characters long. *)
Definition default_token_pattern (text : string) : list string :=
  filter (fun run => 2 ≤ String.length run) (runs_go is_word "" text).

(** *** Component state *)

Inductive LogRecord :=
| LogError (msg : string)
| LogWarning (msg : string)
| LogInfo (msg : string).

(** A vocabulary lists its terms by index. *)
Abbreviation Vocabulary := (list string).

(** The attribute [self.vect]: [None], one [CountVectorizer] or a list of
    two. A vectorizer is given by its [vocabulary_] attribute, absent until
    it is fitted. *)
Inductive Vect :=
| VNone
| VShared (vocabulary_ : option Vocabulary)
| VSeparate (vocabulary_0 vocabulary_1 : option Vocabulary).

Record CountVectorsFeaturizer := mkFeaturizer {
  sequence : bool;
  use_shared_vocab : bool;
  sparse : bool;
  (** [re.compile(self.token_pattern).findall] *)
  token_pattern : string → list string;
  lowercase : bool;
  OOV_token : option string;
  OOV_words : list string;
  is_test_data_featurized : bool;
  vect : Vect;
  (** records emitted through [logger], oldest first *)
  log : list LogRecord
}.

Definition set_vect (self : CountVectorsFeaturizer) (v : Vect) : CountVectorsFeaturizer :=
  mkFeaturizer (sequence self) (use_shared_vocab self) (sparse self) (token_pattern self)
    (lowercase self) (OOV_token self) (OOV_words self) (is_test_data_featurized self)
    v (log self).

Definition set_OOV_words (self : CountVectorsFeaturizer) (ws : list string)
  : CountVectorsFeaturizer :=
  mkFeaturizer (sequence self) (use_shared_vocab self) (sparse self) (token_pattern self)
    (lowercase self) (OOV_token self) ws (is_test_data_featurized self)
    (vect self) (log self).

Definition set_is_test_data_featurized (self : CountVectorsFeaturizer) (b : bool)
  : CountVectorsFeaturizer :=
  mkFeaturizer (sequence self) (use_shared_vocab self) (sparse self) (token_pattern self)
    (lowercase self) (OOV_token self) (OOV_words self) b (vect self) (log self).

Definition logger (self : CountVectorsFeaturizer) (r : LogRecord) : CountVectorsFeaturizer :=
  mkFeaturizer (sequence self) (use_shared_vocab self) (sparse self) (token_pattern self)
    (lowercase self) (OOV_token self) (OOV_words self) (is_test_data_featurized self)
    (vect self) (log self ++ [r]).

Definition set_text_features (m : Message) (f : Features) : Message :=
  mkMessage (msg_text m) (spacy_doc m) (tokens m) (intent_tokens m) (response_tokens m)
    (bilou_entities m) (Some f) (intent_features m) (response_features m).

Definition set_intent_features (m : Message) (f : Features) : Message :=
  mkMessage (msg_text m) (spacy_doc m) (tokens m) (intent_tokens m) (response_tokens m)
    (bilou_entities m) (text_features m) (Some f) (response_features m).

Definition set_response_features (m : Message) (f : Features) : Message :=
  mkMessage (msg_text m) (spacy_doc m) (tokens m) (intent_tokens m) (response_tokens m)
    (bilou_entities m) (text_features m) (intent_features m) (Some f).

(** Truth value of an optional string: [None] and [""] are false. *)
Definition truthy_str (o : option string) : option string :=
  match o with
  | Some s => if decide (s = "") then None else Some s
  | None => None
  end.

(** What the module calls but does not define: scikit-learn's
    [CountVectorizer], configured with the component's parameters and handed
    the tokenizer, and the feature-merging helper of the [Featurizer] base
    class.
    - [analyze tokenizer doc] is the list of features (n-grams) of a document:
      preprocessing, tokenization with the given tokenizer, stop words and
      n-gram expansion.
    - [build_vocabulary docs] is the fitted vocabulary for the analysed
      documents [docs], terms listed by index, after the document-frequency
      and [max_features] limits; [None] when fitting raises [ValueError]
      (empty vocabulary, or nothing left after pruning).
    - [_combine_with_existing_text_features message x] is what the
      base-class helper does for the new features [x]: it returns the
      features to store, or raises. *)
Class External := {
  analyze : (string → list string) → string → list string;
  build_vocabulary : list (list string) → option Vocabulary;
  _combine_with_existing_text_features : Message → Features → result Features
}.

Module CountVectors.

(** [hasattr(self.vect, "vocabulary_")], with the attribute when present:
    neither [None] nor a list has such an attribute. *)
Definition vect_vocabulary_ (v : Vect) : option Vocabulary :=
  match v with
  | VShared (Some vocabulary_) => Some vocabulary_
  | _ => None
  end.

Definition _load_OOV_params (self : CountVectorsFeaturizer) : CountVectorsFeaturizer :=
  let self :=
    match OOV_words self, truthy_str (OOV_token self) with
    | _ :: _, None =>
        set_OOV_words
          (logger self (LogError "The list OOV_words was given, but OOV_token was not. OOV words are ignored."))
          []
    | _, _ => self
    end in
  match lowercase self, truthy_str (OOV_token self) with
  | true, Some oov =>
      mkFeaturizer (sequence self) (use_shared_vocab self) (sparse self)
        (token_pattern self) (lowercase self) (Some (lower oov))
        (lower <$> OOV_words self) (is_test_data_featurized self) (vect self) (log self)
  | _, _ => self
  end.

Definition _tokenizer (self : CountVectorsFeaturizer) (text : string) : list string :=
  let text := sub_numbers text in
  let tokens := token_pattern self text in
  match truthy_str (OOV_token self) with
  | Some oov =>
      match vect_vocabulary_ (vect self) with
      | Some vocabulary_ =>
          (* CountVectorizer is trained, process for prediction *)
          if decide (oov ∈ vocabulary_) then
            (fun t => if decide (t ∈ vocabulary_) then t else oov) <$> tokens
          else tokens
      | None =>
          match OOV_words self with
          | _ :: _ =>
              (* CountVectorizer is not trained, process for train *)
              (fun t => if decide (t ∈ OOV_words self) then oov else t) <$> tokens
          | [] => tokens
          end
      end
  | None => tokens
  end.

Definition _get_message_text (message : Message) : string :=
  if truthy (spacy_doc message) then
    join " " (lemma_ <$> default [] (spacy_doc message))
  else if truthy (tokens message) then
    join " " (text <$> default [] (tokens message))
  else msg_text message.

Definition _get_message_intent (message : Message) : result string :=
  match intent_tokens message with
  | Some toks => Ok (join " " (text <$> toks))
  | None => Raise TypeError
  end.

Definition _get_message_response (message : Message) : string :=
  match response_tokens message with
  | None => " "
  | Some toks => join " " (text <$> toks)
  end.

Definition _get_text_sequence (text : string) : list string := split text.

Definition _check_OOV_present (self : CountVectorsFeaturizer) (examples : list string)
  : CountVectorsFeaturizer :=
  match truthy_str (OOV_token self), OOV_words self with
  | Some oov, [] =>
      if existsb (fun t => str_contains oov t
                           || (lowercase self && str_contains oov (lower t))) examples
      then self
      else logger self
             (LogWarning "OOV_token was given, but it is not present in the training data. All unseen words will be ignored during prediction.")
  | _, _ => self
  end.

Section vectorizer.
Context `{External}.

(** [vect.fit(corpus)] for a vectorizer of [self]: the new [vocabulary_]. *)
Definition fit (self : CountVectorsFeaturizer) (corpus : list string)
  : result Vocabulary :=
  match build_vocabulary (analyze (_tokenizer self) <$> corpus) with
  | Some vocabulary_ => Ok vocabulary_
  | None => Raise ValueError
  end.

(** One row of [vect.transform]: the count of every vocabulary term among
    the features of the document. *)
Definition transform_row (self : CountVectorsFeaturizer) (vocabulary_ : Vocabulary)
    (doc : string) : list Z :=
  (fun term => Z.of_nat (length (filter (fun f => f = term)
                                        (analyze (_tokenizer self) doc))))
    <$> vocabulary_.

(** [vect.transform(docs)] for a fitted vectorizer: one row per document,
    and a matrix without rows for an empty list of documents. *)
Definition transform (self : CountVectorsFeaturizer) (vocabulary_ : Vocabulary)
    (docs : list string) : list (list Z) :=
  transform_row self vocabulary_ <$> docs.

(** [max] of a list of lengths: raises on the empty list. *)
Definition py_max (l : list nat) : result nat :=
  match l with
  | [] => Raise ValueError
  | n :: l => Ok (foldl Nat.max n l)
  end.

(** [X[i, :k, :] = x] for the matrix [Xi] of example [i]: the first [k]
    rows are replaced, where [k] is the number of rows of [x]. *)
Definition assign_rows (Xi x : list (list Z)) : list (list Z) :=
  take (length Xi) x ++ drop (length x) Xi.

(** The result is a list of matrices, one per text: padded to a common
    number of rows when dense. *)
Definition _create_sequence (self : CountVectorsFeaturizer) (vocabulary_ : Vocabulary)
    (texts : list string) : result (list (list (list Z))) :=
  let feature_len := length vocabulary_ in
  let texts := _get_text_sequence <$> texts in
  if sparse self then
    Ok ((fun tokens => transform self vocabulary_ tokens) <$> texts)
  else
    seq_len ← py_max (length <$> texts);
    let num_exs := length texts in
    let X := replicate num_exs (replicate seq_len (replicate feature_len (-1)%Z)) in
    foldlM (fun X (it : nat * list string) =>
              let x := transform self vocabulary_ it.2 in
              match X !! it.1 with
              | Some Xi => Ok (<[it.1 := assign_rows Xi x]> X)
              | None => Raise IndexError
              end)
           X (enumerate texts).
End vectorizer.

Section orchestrator.
Context `{External}.

(** [M[i]] on a list. *)
Definition getidx {A} (l : list A) (i : nat) : result A :=
  match l !! i with
  | Some x => Ok x
  | None => Raise IndexError
  end.

(** The body of the [try] block of [train]: the component with its fitted
    vectorizers, and the feature values [X[i]], [Y_ints[i]], [Y_resps[i]]
    per example. *)
Definition fit_channels (self : CountVectorsFeaturizer)
    (lem_exs lem_ints lem_resps : list string)
  : result (CountVectorsFeaturizer * list Features * list Features * list Features) :=
  if negb (sequence self) then
    match
      (if use_shared_vocab self then
         vocabulary_ ← fit self (lem_exs ++ lem_ints ++ lem_resps);
         let self := set_vect self (VShared (Some vocabulary_)) in
         let X := transform self vocabulary_ lem_exs in
         let Y_ints := transform self vocabulary_ lem_ints in
         let Y_resps := transform self vocabulary_ lem_resps in
         Ok (self, X, Y_ints, Y_resps)
       else
         vocabulary_0 ← fit self lem_exs;
         let self := set_vect self (VSeparate (Some vocabulary_0) None) in
         let X := transform self vocabulary_0 lem_exs in
         vocabulary_1 ← fit self lem_ints;
         let self := set_vect self (VSeparate (Some vocabulary_0) (Some vocabulary_1)) in
         let Y_ints := transform self vocabulary_1 lem_ints in
         vocabulary_1 ← fit self lem_resps;
         let self := set_vect self (VSeparate (Some vocabulary_0) (Some vocabulary_1)) in
         let Y_resps := transform self vocabulary_1 lem_resps in
         Ok (self, X, Y_ints, Y_resps))
    with
    | Ok (self, X, Y_ints, Y_resps) =>
        let to_features := if sparse self then SparseRow else Dense in
        Ok (self, to_features <$> X, to_features <$> Y_ints, to_features <$> Y_resps)
    | Raise e => Raise e
    end
  else
    match
      (if use_shared_vocab self then
         vocabulary_ ← fit self (lem_exs ++ lem_ints);
         let self := set_vect self (VShared (Some vocabulary_)) in
         X ← _create_sequence self vocabulary_ lem_exs;
         Y_ints ← _create_sequence self vocabulary_ lem_ints;
         Y_resps ← _create_sequence self vocabulary_ lem_resps;
         Ok (self, X, Y_ints, Y_resps)
       else
         vocabulary_0 ← fit self lem_exs;
         let self := set_vect self (VSeparate (Some vocabulary_0) None) in
         X ← _create_sequence self vocabulary_0 lem_exs;
         vocabulary_1 ← fit self (lem_ints ++ lem_resps);
         let self := set_vect self (VSeparate (Some vocabulary_0) (Some vocabulary_1)) in
         Y_ints ← _create_sequence self vocabulary_1 lem_ints;
         Y_resps ← _create_sequence self vocabulary_1 lem_resps;
         Ok (self, X, Y_ints, Y_resps))
    with
    | Ok (self, X, Y_ints, Y_resps) =>
        let to_features := if sparse self then SparseSeq else DenseSeq in
        Ok (self, to_features <$> X, to_features <$> Y_ints, to_features <$> Y_resps)
    | Raise e => Raise e
    end.

(** The loop of [train] that writes the features on the examples. *)
Definition set_example_features (self : CountVectorsFeaturizer)
    (X Y_ints Y_resps : list Features) (it : nat * Message) : result Message :=
  let '(i, example) := it in
  Xi ← getidx X i;
  features ←
    (if negb (sequence self) && negb (sparse self) then
       _combine_with_existing_text_features example Xi
     else Ok Xi);
  let example := set_text_features example features in
  Yi ← getidx Y_ints i;
  let example := set_intent_features example Yi in
  Yr ← getidx Y_resps i;
  Ok (set_response_features example Yr).

(** The first statements of [train]: the out-of-vocabulary words are
    lemmatized when a [spacy_nlp] is passed, and [self.vect] becomes one
    new vectorizer or a list of two. *)
Definition train_init (self : CountVectorsFeaturizer)
    (spacy_nlp : option (string → list SpacyToken)) : CountVectorsFeaturizer :=
  let self :=
    match spacy_nlp with
    | Some nlp => set_OOV_words self (w ← OOV_words self; lemma_ <$> nlp w)
    | None => self
    end in
  set_vect self (if use_shared_vocab self then VShared None
                 else VSeparate None None).

(** [train(training_data, spacy_nlp=...)], on the list
    [training_data.intent_examples]. The result is the component and the
    examples after the call. *)
Definition train (self : CountVectorsFeaturizer) (intent_examples : list Message)
    (spacy_nlp : option (string → list SpacyToken))
  : result (CountVectorsFeaturizer * list Message) :=
  let self := train_init self spacy_nlp in
  let lem_exs := _get_message_text <$> intent_examples in
  let self := _check_OOV_present self lem_exs in
  lem_ints ← mapM_result _get_message_intent intent_examples;
  let lem_resps := _get_message_response <$> intent_examples in
  let self := _check_OOV_present self lem_ints in
  let self := _check_OOV_present self lem_resps in
  match fit_channels self lem_exs lem_ints lem_resps with
  | Raise ValueError => Ok (set_vect self VNone, intent_examples)
  | Raise e => Raise e
  | Ok (self, X, Y_ints, Y_resps) =>
      examples ← mapM_result (set_example_features self X Y_ints Y_resps)
                   (enumerate intent_examples);
      Ok (self, examples)
  end.

(** The vectorizer [self.vect] (shared vocabulary) or [self.vect[idx]]. *)
Definition select_vect (self : CountVectorsFeaturizer) (idx : nat)
  : result Vocabulary :=
  match use_shared_vocab self, vect self with
  | true, VShared (Some vocabulary_) => Ok vocabulary_
  | true, VShared None => Raise NotFittedError
  | true, _ => Raise AttributeError
  | false, VSeparate vocabulary_0 vocabulary_1 =>
      match (match idx with 0 => vocabulary_0 | _ => vocabulary_1 end) with
      | Some vocabulary_ => Ok vocabulary_
      | None => Raise NotFittedError
      end
  | false, _ => Raise TypeError
  end.

(** The test-data branch of [process]. *)
Definition featurize_test_data (self : CountVectorsFeaturizer)
    (intent_examples : list Message)
  : result (CountVectorsFeaturizer * list Message) :=
  let self :=
    logger self (LogInfo "Adding BOW features to intents of test set for the first time") in
  lem_ints ← mapM_result _get_message_intent intent_examples;
  let lem_resps := _get_message_response <$> intent_examples in
  let lem_comb := lem_ints ++ lem_resps in
  let self := _check_OOV_present self lem_comb in
  vocabulary_ ← select_vect self 1;
  '(Y_ints, Y_resps) ←
    (if negb (sequence self)
        return result (list Features * list Features) then
       let to_features := if sparse self then SparseRow else Dense in
       Ok (to_features <$> transform self vocabulary_ lem_ints,
           to_features <$> transform self vocabulary_ lem_resps)
     else
       let to_features := if sparse self then SparseSeq else DenseSeq in
       Y_ints ← _create_sequence self vocabulary_ lem_ints;
       Y_resps ← _create_sequence self vocabulary_ lem_resps;
       Ok (to_features <$> Y_ints, to_features <$> Y_resps)
     : result (list Features * list Features));
  examples ←
    mapM_result (fun it : nat * Message =>
                   Yi ← getidx Y_ints it.1;
                   Yr ← getidx Y_resps it.1;
                   Ok (set_response_features (set_intent_features it.2 Yi) Yr))
                (enumerate intent_examples);
  Ok (set_is_test_data_featurized self true, examples).

(** [a.squeeze()] for the array [a] of shape [(1, len(row))] that holds the
    bag of one text: the batch axis goes, and so does the other axis when the
    row has one entry. *)
Definition squeeze_row (row : list Z) : Features :=
  match row with
  | [z] => Scalar z
  | _ => Dense row
  end.

(** [a.squeeze()] for the array [a] of shape [(1, len(rows), feature_len)]
    that holds the sequence of one text: every axis of length one goes. *)
Definition squeeze_rows (feature_len : nat) (rows : list (list Z)) : Features :=
  match rows with
  | [row] => squeeze_row row
  | _ => if decide (feature_len = 1) then Dense (concat rows) else DenseSeq rows
  end.

(** [process(message, test_data=...)]. The result is the component, the
    message after the call, and the returned value ([featurized_test_data],
    or [None]). *)
Definition process (self : CountVectorsFeaturizer) (message : Message)
    (test_data : option (list Message))
  : result (CountVectorsFeaturizer * Message * option (list Message)) :=
  match vect self with
  | VNone =>
      Ok (logger self
            (LogError "There is no trained CountVectorizer: component is either not trained or didn't receive enough training data"),
          message, None)
  | _ =>
      '(self, featurized_test_data) ←
        match test_data with
        | Some test_data =>
            if is_test_data_featurized self then Ok (self, None)
            else
              '(self, test_data) ← featurize_test_data self test_data;
              Ok (self, Some test_data)
        | None => Ok (self, None)
        end;
      let message_text := _get_message_text message in
      vocabulary_ ← select_vect self 0;
      message ←
        (if negb (sparse self) then
           if negb (sequence self) then
             bag ← getidx (transform self vocabulary_ [message_text]) 0;
             features ←
               _combine_with_existing_text_features message (squeeze_row bag);
             Ok (set_text_features message features)
           else
             X ← _create_sequence self vocabulary_ [message_text];
             seq ← getidx X 0;
             Ok (set_text_features message (squeeze_rows (length vocabulary_) seq))
         else
           if negb (sequence self) then
             bag ← getidx (transform self vocabulary_ [message_text]) 0;
             Ok (set_text_features message (SparseRow bag))
           else
             seq ← _create_sequence self vocabulary_ [message_text];
             Ok (set_text_features message (SparseSeqList seq)));
      Ok (self, message, featurized_test_data)
  end.
End orchestrator.

(** *** scikit-learn with the component's default parameters

    [analyzer="word"], n-grams of length one, no stop words, no accent
    stripping: the features of a document are its tokens, after lowercasing
    when [lowercase] is set. [max_df=1.0], no [max_features], and [min_df] an
    absolute count (1 by default): the terms found in at least [min_df]
    documents are kept and indexed in sorted order, and fitting raises when no
    term is left. *)
Definition default_analyze (lowercase : bool) (tokenizer : string → list string)
    (doc : string) : list string :=
  tokenizer (if lowercase then lower doc else doc).

Definition document_frequency (docs : list (list string)) (term : string) : nat :=
  length (filter (fun doc => term ∈ doc) docs).

Definition default_build_vocabulary (min_df : nat) (docs : list (list string))
  : option Vocabulary :=
  match filter (fun term => min_df ≤ document_frequency docs term)
               (merge_sort String.le (remove_dups (concat docs))) with
  | [] => None
  | terms => Some terms
  end.

(** [np.atleast_1d] of a value of at most one dimension, as the list of its
    items: a sparse matrix is one object, and a list of them a list of
    objects. [None] for a two-dimensional array. *)
Definition items_1d (f : Features) : option (list ArrayItem) :=
  match f with
  | Scalar z => Some [Number z]
  | Dense row => Some (Number <$> row)
  | SparseRow row => Some [SparseMatrix [row]]
  | SparseSeq rows => Some [SparseMatrix rows]
  | SparseSeqList mats => Some (SparseMatrix <$> mats)
  | Objects items => Some items
  | DenseSeq _ => None
  end.

Definition item_number (item : ArrayItem) : option Z :=
  match item with
  | Number z => Some z
  | SparseMatrix _ => None
  end.

(** The one-dimensional array of the given items: an array of numbers when
    every item is one. *)
Definition of_items (items : list ArrayItem) : Features :=
  match mapM item_number items with
  | Some row => Dense row
  | None => Objects items
  end.

(** [np.hstack((existing, additional))]: arrays of at most one dimension are
    concatenated; two-dimensional arrays are concatenated row by row and must
    have as many rows; arrays of different dimensions raise. *)
Definition hstack (existing additional : Features) : result Features :=
  match existing, additional with
  | DenseSeq rows, DenseSeq rows' =>
      if decide (length rows = length rows') then Ok (DenseSeq (zip_with app rows rows'))
      else Raise ValueError
  | _, _ =>
      match items_1d existing, items_1d additional with
      | Some items, Some items' => Ok (of_items (items ++ items'))
      | _, _ => Raise ValueError
      end
  end.

(** Modelled from the spec: the base-class helper
    [Featurizer._combine_with_existing_text_features], whose source is not part
    of the two modules. New features are never put in the place of features
    already present on the message: they are combined with them by
    concatenation ([np.hstack]), which raises when the two do not fit; they
    are returned as they are when the message has none. *)
Definition hstack_with_existing (message : Message) (additional_features : Features)
  : result Features :=
  match text_features message with
  | Some existing => hstack existing additional_features
  | None => Ok additional_features
  end.

Definition default_external (lowercase : bool) (min_df : nat) : External :=
  {| analyze := default_analyze lowercase;
     build_vocabulary := default_build_vocabulary min_df;
     _combine_with_existing_text_features := hstack_with_existing |}.

End CountVectors.

(** ** Components that differ in their log only, or in their log and
    vectorizers only *)

Definition same_settings_but_vect (s s' : CountVectorsFeaturizer) : Prop :=
  sequence s' = sequence s ∧ use_shared_vocab s' = use_shared_vocab s ∧
  sparse s' = sparse s ∧ token_pattern s' = token_pattern s ∧
  OOV_token s' = OOV_token s ∧ OOV_words s' = OOV_words s.

Definition same_settings (s s' : CountVectorsFeaturizer) : Prop :=
  sequence s' = sequence s ∧ use_shared_vocab s' = use_shared_vocab s ∧
  sparse s' = sparse s ∧ token_pattern s' = token_pattern s ∧
  OOV_token s' = OOV_token s ∧ OOV_words s' = OOV_words s ∧ vect s' = vect s.

(** The shape of the two position dictionaries of [bilou_tags_from_offsets]:
    for an offset, the index of the last token carrying it. *)
Definition pos_index {A} (key : A → Z) (l : list A) : gmap Z nat :=
  dict_of ((fun it => (key it.2, it.1)) <$> enumerate l).

(** ** Well-formedness of the inputs of the tag mapper *)

(** Tokens as a tokenizer emits them: every token covers at least one
    character, and the tokens follow each other without overlapping. *)
Definition tokens_wf (T : list Token) : Prop :=
  Forall (fun t => (start t < end_ t)%Z) T ∧
  StronglySorted (fun a b => (end_ a ≤ start b)%Z) T.

(** The character range [[start, end)] of a token meets the span [[s, e)]. *)
Definition overlaps (t : Token) (s e : Z) : Prop :=
  ∃ c, (start t ≤ c < end_ t)%Z ∧ (s ≤ c < e)%Z.

(** ** bilou_utils.py: the remaining functions *)

(** [c.upper()] on an ASCII character. *)
Definition upper_char (c : ascii) : ascii :=
  let n := nat_of_ascii c in
  if (97 <=? n)%nat && (n <=? 122)%nat then ascii_of_nat (n - 32) else c.

(** [s[i]] for an index known to be inside the string. *)
Fixpoint str_get (i : nat) (s : string) : option ascii :=
  match s, i with
  | String c _, 0 => Some c
  | String _ s, S i => str_get i s
  | EmptyString, _ => None
  end.

Definition bilou_prefix_from_tag (tag : string) : option string :=
  if bool_decide (2 ≤ String.length tag)
     && bool_decide (str_get 1 tag = Some "-"%char)
     && bool_decide (str_take 2 tag ∈ Bilou.BILOU_PREFIXES)
  then match str_get 0 tag with
       | Some c => Some (String (upper_char c) "")
       | None => None
       end
  else None.

(** An entity annotation as the training data stores it: a dictionary read
    at the keys ["start"], ["end"] and ["entity"]; a field is [None] when
    the key is missing. *)
Record EntityDict := mkEntityDict {
  ent_start : option Z;
  ent_end : option Z;
  ent_entity : option string
}.

(** A training example for the tag mapper: the message with its attribute
    [ENTITIES_ATTRIBUTE] ([None] when it was never set). *)
Record Example := mkExample {
  ex_message : Message;
  ex_entities : option (list EntityDict)
}.

Definition set_bilou_entities (m : Message) (tags : list string) : Message :=
  mkMessage (msg_text m) (spacy_doc m) (tokens m) (intent_tokens m) (response_tokens m)
    (Some tags) (text_features m) (intent_features m) (response_features m).

(** [entity["start"], entity["end"], entity["entity"]]. *)
Definition convert_entity (entity : EntityDict) : result Entity :=
  match ent_start entity, ent_end entity, ent_entity entity with
  | Some s, Some e, Some label => Ok (s, e, label)
  | _, _, _ => Raise KeyError
  end.

(** [message.get(ENTITIES_ATTRIBUTE, [])] converted entry by entry. *)
Definition map_message_entities (example : Example) : result (list Entity) :=
  mapM_result convert_entity (default [] (ex_entities example)).

(** One iteration of the loop of [apply_bilou_schema]. Without tokens,
    [enumerate(tokens)] in [bilou_tags_from_offsets] raises. *)
Definition apply_bilou_schema_to (example : Example) : result Example :=
  if truthy (ex_entities example) then
    entities ← map_message_entities example;
    match tokens (ex_message example) with
    | None => Raise TypeError
    | Some toks =>
        output ← Bilou.bilou_tags_from_offsets toks entities;
        Ok (mkExample (set_bilou_entities (ex_message example) output)
              (ex_entities example))
    end
  else Ok example.

Definition apply_bilou_schema (training_examples : list Example)
  : result (list Example) :=
  mapM_result apply_bilou_schema_to training_examples.

(** A tag that names an entity of the list: a BILOU prefix followed by the
    label of one of the spans. *)
Definition entity_tag (entities : list Entity) (tag : string) : Prop :=
  ∃ prefix s e label,
    prefix ∈ Bilou.BILOU_PREFIXES ∧ (s, e, label) ∈ entities ∧ tag = prefix +:+ label.

(** An entity dictionary with its three keys. *)
Definition entity_complete (entity : EntityDict) : Prop :=
  is_Some (ent_start entity) ∧ is_Some (ent_end entity) ∧ is_Some (ent_entity entity).

(** Two messages that differ at most in their BILOU tag sequence. *)
Definition same_but_bilou_entities (m m' : Message) : Prop :=
  msg_text m' = msg_text m ∧ spacy_doc m' = spacy_doc m ∧ tokens m' = tokens m ∧
  intent_tokens m' = intent_tokens m ∧ response_tokens m' = response_tokens m ∧
  text_features m' = text_features m ∧ intent_features m' = intent_features m ∧
  response_features m' = response_features m.

(** Two messages that differ at most in their three feature fields. *)
Definition same_but_features (m m' : Message) : Prop :=
  msg_text m' = msg_text m ∧ spacy_doc m' = spacy_doc m ∧ tokens m' = tokens m ∧
  intent_tokens m' = intent_tokens m ∧ response_tokens m' = response_tokens m ∧
  bilou_entities m' = bilou_entities m.

(** ** Sample inputs *)

(** "fly to new york city", split on whitespace. *)
Definition sample_tokens : list Token :=
  [mkToken "fly" 0 3; mkToken "to" 4 6; mkToken "new" 7 10;
   mkToken "york" 11 15; mkToken "city" 16 20].

(** A message that only carries a BILOU tag sequence, and one that carries
    nothing but its text. *)
Definition tagged_message (tags : list string) : Message :=
  mkMessage "" None None None None (Some tags) None None None.

Definition bare_message (txt : string) : Message :=
  mkMessage txt None None None None None None None None.

(** The entries of the dictionary comprehension of [build_tag_id_dict]. *)
Definition tag_id_entries (labels : list string) : list (string * Z) :=
  '(idx_1, tag) ← enumerate labels;
  '(idx_2, prefix) ← enumerate Bilou.BILOU_PREFIXES;
  [(prefix +:+ tag,
    (Z.of_nat idx_1 * Z.of_nat (length Bilou.BILOU_PREFIXES) + Z.of_nat idx_2 + 1)%Z)].

Definition sample_corpus : list Message :=
  [tagged_message ["O"; "B-city"; "L-city"]; bare_message "hi";
   tagged_message ["U-age"; "O"]].

(** A training example with its text and its intent and response tokens. *)
Definition word (s : string) : Token := mkToken s 0 0.

Definition sample_example (txt : string) (intent response : list string) : Message :=
  mkMessage txt None None (Some (word <$> intent)) (Some (word <$> response))
    None None None None.


Definition sample_training_data : list Message :=
  [sample_example "hello world 42" ["greet"] ["hi"; "there"];
   sample_example "bye now 7 oov" ["leave"] ["see"; "you"]].

(** A freshly constructed component with the default token pattern and
    [lowercase=True]. *)
Definition sample_featurizer (sequence use_shared_vocab sparse : bool)
    (OOV_token : option string) (OOV_words : list string) : CountVectorsFeaturizer :=
  mkFeaturizer sequence use_shared_vocab sparse default_token_pattern true
    OOV_token OOV_words false VNone [].

(** The component after [train] on the sample data, under scikit-learn's
    default parameters (the component itself when training raises). *)
Definition sample_trained (self : CountVectorsFeaturizer) : CountVectorsFeaturizer :=
  match CountVectors.train (H := CountVectors.default_external true 1)
          self sample_training_data None with
  | Ok (self', _) => self'
  | Raise _ => self
  end.

(** What [train] and [process] return under scikit-learn's default
    parameters, with the inputs themselves standing in when the call
    raises. *)
Definition train_outcome (self : CountVectorsFeaturizer) (intent_examples : list Message)
  : CountVectorsFeaturizer * list Message :=
  match CountVectors.train (H := CountVectors.default_external true 1)
          self intent_examples None with
  | Ok r => r
  | Raise _ => (self, intent_examples)
  end.


(** What [process] returns when it is passed test data. *)
Definition process_test_outcome (self : CountVectorsFeaturizer) (message : Message)
    (test_data : list Message)
  : CountVectorsFeaturizer * Message * option (list Message) :=
  match CountVectors.process (H := CountVectors.default_external true 1)
          self message (Some test_data) with
  | Ok r => r
  | Raise _ => (self, message, None)
  end.

(** "fly to new york city" with the span of "new york city" annotated, and
    a message without annotation. *)
Definition sample_annotated : Example :=
  mkExample
    (mkMessage "fly to new york city" None (Some sample_tokens) None None
       None None None None)
    (Some [mkEntityDict (Some 7%Z) (Some 20%Z) (Some "city")]).

Definition sample_unannotated : Example :=
  mkExample
    (mkMessage "hello" None (Some [mkToken "hello" 0 5]) None None None None None None)
    None.

(** * Properties *)

(** ** Generic facts about the Python primitives *)

Section primitives.
Context {A B : Type}.

Lemma foldlM_app (f : A → B → result A) a l1 l2 :
  foldlM f a (l1 ++ l2) = (a' ← foldlM f a l1; foldlM f a' l2).
Proof.
  revert a. induction l1 as [|x l1 IH]; intros a; simpl; [done|].
  destruct (f a x) as [a'|e]; simpl; [apply IH|done].
Qed.

Lemma setitem_ok (l : list A) i x :
  i < length l → setitem l i x = Ok (<[i:=x]> l).
Proof. intros Hi. unfold setitem. by rewrite decide_True. Qed.

Lemma enumerate_snoc (l : list A) x :
  enumerate (l ++ [x]) = enumerate l ++ [(length l, x)].
Proof.
  unfold enumerate. rewrite imap_app. simpl.
  by rewrite Nat.add_0_r.
Qed.

Lemma mapM_result_ok (f : A → result B) (g : A → B) l :
  (∀ x, x ∈ l → f x = Ok (g x)) → mapM_result f l = Ok (g <$> l).
Proof.
  induction l as [|x l IH]; intros Hf; simpl; [done|].
  rewrite Hf by left. simpl. rewrite IH; [done|].
  intros y Hy. apply Hf. by right.
Qed.
End primitives.

(** A run of item assignments inside the list succeeds and only touches the
    assigned indices. *)
Lemma foldlM_setitem {A} (x : A) (idxs : list nat) (l : list A) :
  Forall (fun i => i < length l) idxs →
  ∃ l', foldlM (fun b i => setitem b i x) l idxs = Ok l' ∧
        length l' = length l ∧
        ∀ k, l' !! k = if decide (k ∈ idxs) then const x <$> l !! k else l !! k.
Proof.
  revert l. induction idxs as [|i idxs IH]; intros l Hall.
  - exists l. split_and!; [done..|]. intros k. rewrite decide_False; [done|].
    apply not_elem_of_nil.
  - apply Forall_cons in Hall as [Hi Hall]. simpl.
    rewrite setitem_ok by done. simpl.
    destruct (IH (<[i:=x]> l)) as (l' & Hl' & Hlen & Hlook).
    { by rewrite length_insert. }
    exists l'. split_and!; [done|by rewrite Hlen, length_insert|].
    intros k. rewrite Hlook. destruct (decide (k = i)) as [->|Hne].
    + rewrite list_lookup_insert_eq by done.
      destruct (lookup_lt_is_Some_2 l i Hi) as [y ->]. simpl.
      rewrite (decide_True (P := i ∈ i :: idxs)) by left.
      by case_decide.
    + rewrite list_lookup_insert_ne by done.
      destruct (decide (k ∈ idxs)) as [Hin|Hnin].
      * rewrite decide_True; [done|by right].
      * rewrite decide_False; [done|]. rewrite elem_of_cons. tauto.
Qed.

(** The position dictionaries. *)
Section pos_index.
Context {A : Type} (key : A → Z).

Lemma pos_index_snoc l x :
  pos_index key (l ++ [x]) = <[key x := length l]> (pos_index key l).
Proof.
  unfold pos_index, dict_of.
  by rewrite enumerate_snoc, fmap_app, foldl_app.
Qed.

Lemma pos_index_Some l z i :
  pos_index key l !! z = Some i → ∃ t, l !! i = Some t ∧ key t = z.
Proof.
  induction l as [|x l IH] using rev_ind; [done|].
  rewrite pos_index_snoc, lookup_insert. case_decide as Hk.
  - intros [= <-]. exists x. split; [|done].
    by rewrite lookup_app_r, Nat.sub_diag.
  - intros (t & Ht & Hkt)%IH. exists t. split; [|done].
    by apply lookup_app_l_Some.
Qed.

Lemma pos_index_None l z :
  pos_index key l !! z = None ↔ ∀ t, t ∈ l → key t ≠ z.
Proof.
  induction l as [|x l IH] using rev_ind.
  - split; [|done]. intros _ t Ht. by apply elem_of_nil in Ht.
  - rewrite pos_index_snoc, lookup_insert. case_decide as Hk.
    + split; [done|]. intros Hall. destruct (Hall x); [|done].
      apply elem_of_app. right. by left.
    + rewrite IH. split.
      * intros Hall t [Ht|Ht%list_elem_of_singleton]%elem_of_app; [by apply Hall|].
        by subst.
      * intros Hall t Ht. apply Hall, elem_of_app. by left.
Qed.

Lemma pos_index_NoDup l i t :
  NoDup (key <$> l) → l !! i = Some t → pos_index key l !! key t = Some i.
Proof.
  induction l as [|x l IH] using rev_ind; [done|].
  rewrite fmap_app, NoDup_app. intros (Hnd & Hdisj & _) Hi.
  rewrite pos_index_snoc, lookup_insert.
  apply lookup_app_Some in Hi as [Hi|[Hge Hi]].
  - rewrite decide_False; [by apply IH|].
    intros Heq. apply (Hdisj (key t)).
    + apply list_elem_of_fmap. exists t. split; [done|].
      by eapply list_elem_of_lookup_2.
    + rewrite <- Heq. simpl. left.
  - apply list_lookup_singleton_Some in Hi as [Hi0 ->].
    rewrite decide_True by done. f_equal. lia.
Qed.
End pos_index.

(** ** The BILOU tag mapper *)

Section bilou_facts.
Import Bilou.

Lemma start_index_Some toks z i :
  start_pos_to_token_idx toks !! z = Some i → ∃ t, toks !! i = Some t ∧ start t = z.
Proof. apply (pos_index_Some start). Qed.

Lemma end_index_Some toks z i :
  end_pos_to_token_idx toks !! z = Some i → ∃ t, toks !! i = Some t ∧ end_ t = z.
Proof. apply (pos_index_Some end_). Qed.

Lemma handle_entity_ok smap emap bilou entity :
  (∀ z i, smap !! z = Some i → i < length bilou) →
  (∀ z i, emap !! z = Some i → i < length bilou) →
  ∃ bilou', _handle_entity emap smap bilou entity = Ok bilou' ∧
            length bilou' = length bilou.
Proof.
  intros Hs He. destruct entity as [[start_pos end_pos] label]. simpl.
  destruct (smap !! start_pos) as [si|] eqn:Hsi; [|by eauto].
  destruct (emap !! end_pos) as [ei|] eqn:Hei; [|by eauto].
  apply Hs in Hsi. apply He in Hei.
  case_decide as Heq.
  - rewrite setitem_ok by done. eexists. split; [done|]. by rewrite length_insert.
  - rewrite setitem_ok by done. simpl.
    destruct (foldlM_setitem ("I-" +:+ label) (range_nat (S si) ei)
                (<[si:="B-" +:+ label]> bilou)) as (b2 & -> & Hlen & _).
    { apply Forall_forall. intros k [Hk1 Hk2]%elem_of_seq.
      rewrite length_insert. lia. }
    simpl. rewrite length_insert in Hlen.
    rewrite setitem_ok by lia. eexists. split; [done|].
    by rewrite length_insert.
Qed.

Lemma handle_entities_ok smap emap entities bilou :
  (∀ z i, smap !! z = Some i → i < length bilou) →
  (∀ z i, emap !! z = Some i → i < length bilou) →
  ∃ bilou', _handle_entities bilou entities emap smap = Ok bilou' ∧
            length bilou' = length bilou.
Proof.
  unfold _handle_entities. revert bilou.
  induction entities as [|entity entities IH]; intros bilou Hs He; simpl.
  - by eauto.
  - destruct (handle_entity_ok smap emap bilou entity Hs He) as (b1 & -> & Hlen).
    simpl. destruct (IH b1) as (b2 & Hb2 & Hlen2).
    { intros z i Hi. rewrite Hlen. eauto. }
    { intros z i Hi. rewrite Hlen. eauto. }
    exists b2. split; [done|]. congruence.
Qed.

Lemma elem_of_add_range (acc : gset Z) lo hi c :
  c ∈ foldl (fun entity_positions i => entity_positions ∪ {[i]}) acc (range lo hi)
  ↔ c ∈ acc ∨ (lo ≤ c < hi)%Z.
Proof.
  unfold range.
  assert (∀ l (acc : gset Z),
    c ∈ foldl (fun entity_positions i => entity_positions ∪ {[i]}) acc l
    ↔ c ∈ acc ∨ c ∈ l) as Hgen.
  { induction l as [|i l IH]; intros acc'; simpl.
    - rewrite elem_of_nil. tauto.
    - rewrite IH, elem_of_union, elem_of_singleton, elem_of_cons. tauto. }
  rewrite Hgen, elem_of_seqZ. split; (intros [?|?]; [by left|right; lia]).
Qed.

Lemma elem_of_entity_positions entities c :
  c ∈ _get_entity_positions entities
  ↔ ∃ s e label, (s, e, label) ∈ entities ∧ (s ≤ c < e)%Z.
Proof.
  unfold _get_entity_positions.
  assert (∀ (acc : gset Z),
    c ∈ foldl (fun entity_positions (entity : Entity) =>
                 let '(start_pos, end_pos, _) := entity in
                 foldl (fun entity_positions i => entity_positions ∪ {[i]})
                       entity_positions (range start_pos end_pos))
              acc entities
    ↔ c ∈ acc ∨ ∃ s e label, (s, e, label) ∈ entities ∧ (s ≤ c < e)%Z) as Hgen.
  { induction entities as [|[[s e] label] entities IH]; intros acc; simpl.
    - split; [by left|]. intros [?|(? & ? & ? & []%elem_of_nil & _)]. done.
    - rewrite IH, elem_of_add_range. split.
      + intros [[?|?]|(s' & e' & l' & Hin & Hc)]; [by left|..].
        * right. exists s, e, label. split; [left|done].
        * right. exists s', e', l'. split; [by right|done].
      + intros [?|(s' & e' & l' & Hin & Hc)]; [by left; left|].
        apply elem_of_cons in Hin as [[= -> -> ->]|Hin]; [by left; right|].
        right. by exists s', e', l'. }
  rewrite Hgen. rewrite elem_of_empty. tauto.
Qed.

Lemma token_hits_true entity_positions token :
  token_hits entity_positions token = true
  ↔ ∃ c, (start token ≤ c < end_ token)%Z ∧ c ∈ entity_positions.
Proof.
  unfold token_hits, range. rewrite bool_decide_eq_true, Exists_exists.
  split; intros (c & Hc & Hin).
  - apply elem_of_seqZ in Hc. exists c. split; [lia|done].
  - exists c. split; [|done]. apply elem_of_seqZ. lia.
Qed.

Lemma handle_not_an_entity_spec bilou toks entity_positions missing :
  length toks ≤ length bilou →
  ∃ r, _handle_not_an_entity bilou toks entity_positions missing = Ok r ∧
       length r = length bilou ∧
       ∀ k, r !! k =
            match toks !! k with
            | Some t => if token_hits entity_positions t then bilou !! k
                        else Some missing
            | None => bilou !! k
            end.
Proof.
  unfold _handle_not_an_entity.
  induction toks as [|t toks IH] using rev_ind; intros Hlen.
  - exists bilou. by split_and!.
  - rewrite length_app in Hlen. simpl in Hlen.
    destruct IH as (r & Hr & Hrlen & Hlook); [lia|].
    rewrite enumerate_snoc, foldlM_app, Hr. simpl.
    destruct (token_hits entity_positions t) eqn:Hhit.
    + exists r. split_and!; [done..|]. intros k. rewrite Hlook.
      destruct (decide (k < length toks)) as [Hk|Hk].
      * by rewrite lookup_app_l.
      * rewrite (lookup_ge_None_2 toks) by lia.
        rewrite lookup_app_r by lia.
        destruct (k - length toks) as [|n] eqn:Hd; simpl; [by rewrite Hhit|done].
    + rewrite setitem_ok by lia. simpl. eexists. split_and!; [done|..].
      { by rewrite length_insert. }
      intros k. destruct (decide (k = length toks)) as [->|Hne].
      * rewrite list_lookup_insert_eq by lia.
        by rewrite lookup_app_r, Nat.sub_diag; [simpl; rewrite Hhit|].
      * rewrite list_lookup_insert_ne by done. rewrite Hlook.
        destruct (decide (k < length toks)) as [Hk|Hk].
        -- by rewrite lookup_app_l.
        -- rewrite (lookup_ge_None_2 toks) by lia.
           rewrite lookup_app_r by lia.
           destruct (k - length toks) as [|n] eqn:Hd; [lia|done].
Qed.

(** The two phases composed: the call never raises, and a token keeps the
    tag of the entity phase exactly when one of its characters is covered
    by an entity span. *)
Lemma bilou_tags_from_offsets_spec toks entities :
  ∃ bilou tags,
    _handle_entities ((fun _ => "-") <$> toks) entities
      (end_pos_to_token_idx toks) (start_pos_to_token_idx toks) = Ok bilou ∧
    length bilou = length toks ∧
    bilou_tags_from_offsets toks entities = Ok tags ∧
    length tags = length toks ∧
    ∀ k t, toks !! k = Some t →
           tags !! k = if token_hits (_get_entity_positions entities) t
                       then bilou !! k else Some "O".
Proof.
  destruct (handle_entities_ok (start_pos_to_token_idx toks)
              (end_pos_to_token_idx toks) entities ((fun _ => "-") <$> toks))
    as (bilou & Hb & Hlen).
  { intros z i (t & Ht & _)%start_index_Some. rewrite length_fmap.
    by eapply lookup_lt_Some. }
  { intros z i (t & Ht & _)%end_index_Some. rewrite length_fmap.
    by eapply lookup_lt_Some. }
  rewrite length_fmap in Hlen.
  destruct (handle_not_an_entity_spec bilou toks
              (_get_entity_positions entities) "O") as (tags & Ht & Htlen & Hlook);
    [lia|].
  exists bilou, tags. split_and!; [done..| |congruence|].
  - unfold bilou_tags_from_offsets, bilou_tags_from_offsets_with.
    by rewrite Hb.
  - intros k t Hk. by rewrite Hlook, Hk.
Qed.
End bilou_facts.

(** C8. For all token sequences [T] and entity lists [E],
    [bilou_tags_from_offsets T E] returns (without raising) a list of length
    [len T]; with no entities, every position of the result is ["O"]. *)
Theorem C8_bilou_tags_length (T : list Token) (E : list Entity) :
  (∃ tags, Bilou.bilou_tags_from_offsets T E = Ok tags ∧ length tags = length T) ∧
  Bilou.bilou_tags_from_offsets T [] = Ok (replicate (length T) "O").
Proof.
  split.
  - destruct (bilou_tags_from_offsets_spec T E) as (bilou & tags & _ & _ & Ht & Hlen & _).
    by exists tags.
  - destruct (bilou_tags_from_offsets_spec T []) as (bilou & tags & _ & _ & -> & Hlen & Hlook).
    f_equal. apply list_eq. intros k.
    destruct (T !! k) as [t|] eqn:Hk.
    + rewrite (Hlook k t Hk).
      destruct (Bilou.token_hits _ t) eqn:Hhit.
      * apply token_hits_true in Hhit as (c & _ & Hc).
        apply elem_of_entity_positions in Hc as (? & ? & ? & []%elem_of_nil & _).
      * symmetry. apply lookup_replicate_2. by eapply lookup_lt_Some.
    + apply lookup_ge_None in Hk.
      rewrite (lookup_ge_None_2 tags) by lia.
      symmetry. apply lookup_ge_None_2. rewrite length_replicate. lia.
Qed.

(** ** A single entity *)

Section single_entity.
Import Bilou.

Lemma tokens_wf_lookup_lt T a b ta tb :
  tokens_wf T → T !! a = Some ta → T !! b = Some tb → a < b →
  (end_ ta ≤ start tb)%Z.
Proof.
  intros [_ Hs]. revert a b. induction Hs as [|x l Hs IH Hall]; intros a b Ha Hb Hab.
  - done.
  - destruct b as [|b]; [lia|]. simpl in Hb. destruct a as [|a]; simpl in Ha.
    + injection Ha as ->. rewrite Forall_forall in Hall.
      apply Hall. by eapply list_elem_of_lookup_2.
    + apply (IH a b); [done..|lia].
Qed.

Lemma tokens_wf_nonempty T a ta :
  tokens_wf T → T !! a = Some ta → (start ta < end_ ta)%Z.
Proof.
  intros [Hne _] Ha. rewrite Forall_forall in Hne.
  apply Hne. by eapply list_elem_of_lookup_2.
Qed.

Lemma tokens_wf_NoDup_start T : tokens_wf T → NoDup (start <$> T).
Proof.
  intros Hwf. apply NoDup_alt. intros a b z.
  rewrite !list_lookup_fmap.
  destruct (T !! a) as [ta|] eqn:Ha; [|done].
  destruct (T !! b) as [tb|] eqn:Hb; [|done]. simpl. intros [= <-] [= Heq].
  pose proof (tokens_wf_nonempty T a ta Hwf Ha).
  pose proof (tokens_wf_nonempty T b tb Hwf Hb).
  destruct (Nat.lt_trichotomy a b) as [Hlt|[->|Hlt]]; [|done|].
  - pose proof (tokens_wf_lookup_lt T a b ta tb Hwf Ha Hb Hlt). lia.
  - pose proof (tokens_wf_lookup_lt T b a tb ta Hwf Hb Ha Hlt). lia.
Qed.

Lemma tokens_wf_NoDup_end T : tokens_wf T → NoDup (end_ <$> T).
Proof.
  intros Hwf. apply NoDup_alt. intros a b z.
  rewrite !list_lookup_fmap.
  destruct (T !! a) as [ta|] eqn:Ha; [|done].
  destruct (T !! b) as [tb|] eqn:Hb; [|done]. simpl. intros [= <-] [= Heq].
  pose proof (tokens_wf_nonempty T a ta Hwf Ha).
  pose proof (tokens_wf_nonempty T b tb Hwf Hb).
  destruct (Nat.lt_trichotomy a b) as [Hlt|[->|Hlt]]; [|done|].
  - pose proof (tokens_wf_lookup_lt T a b ta tb Hwf Ha Hb Hlt). lia.
  - pose proof (tokens_wf_lookup_lt T b a tb ta Hwf Hb Ha Hlt). lia.
Qed.

Lemma start_index_wf T i ti :
  tokens_wf T → T !! i = Some ti → start_pos_to_token_idx T !! start ti = Some i.
Proof. intros Hwf. by apply (pos_index_NoDup start), tokens_wf_NoDup_start. Qed.

Lemma end_index_wf T j tj :
  tokens_wf T → T !! j = Some tj → end_pos_to_token_idx T !! end_ tj = Some j.
Proof. intros Hwf. by apply (pos_index_NoDup end_), tokens_wf_NoDup_end. Qed.

Lemma start_index_None T z :
  (∀ t, t ∈ T → start t ≠ z) → start_pos_to_token_idx T !! z = None.
Proof. apply (pos_index_None start). Qed.

Lemma end_index_None T z :
  (∀ t, t ∈ T → end_ t ≠ z) → end_pos_to_token_idx T !! z = None.
Proof. apply (pos_index_None end_). Qed.

Lemma handle_entities_single bilou s e label emap smap :
  _handle_entities bilou [(s, e, label)] emap smap =
  match smap !! s, emap !! e with
  | Some start_token_idx, Some end_token_idx =>
      if decide (start_token_idx = end_token_idx) then
        setitem bilou start_token_idx ("U-" +:+ label)
      else
        bilou ← setitem bilou start_token_idx ("B-" +:+ label);
        bilou ← foldlM (fun bilou i => setitem bilou i ("I-" +:+ label)) bilou
                  (range_nat (S start_token_idx) end_token_idx);
        setitem bilou end_token_idx ("L-" +:+ label)
  | _, _ => Ok bilou
  end.
Proof.
  unfold _handle_entities. cbn [foldlM].
  assert (∀ m : result (list string), (a' ← m; Ok a') = m) as ->; [by intros []|].
  done.
Qed.

Lemma token_hits_single s e label t :
  token_hits (_get_entity_positions [(s, e, label)]) t = true ↔ overlaps t s e.
Proof.
  rewrite token_hits_true. unfold overlaps.
  split; intros (c & Hc & Hin); exists c; (split; [done|]).
  - apply elem_of_entity_positions in Hin as (s' & e' & l' & Hin & Hr).
    apply list_elem_of_singleton in Hin as [= -> -> ->]. done.
  - apply elem_of_entity_positions. exists s, e, label. split; [left|done].
Qed.

(** Between aligned boundaries, the tokens meeting the span are exactly
    those from the first to the last one. *)
Lemma overlaps_aligned T i j ti tj k tk :
  tokens_wf T → T !! i = Some ti → T !! j = Some tj → T !! k = Some tk →
  i ≤ j → overlaps tk (start ti) (end_ tj) ↔ i ≤ k ≤ j.
Proof.
  intros Hwf Hi Hj Hk Hij.
  pose proof (tokens_wf_nonempty T k tk Hwf Hk) as Hne.
  unfold overlaps. split.
  - intros (c & Hc1 & Hc2).
    destruct (decide (k < i)) as [Hlt|?].
    { pose proof (tokens_wf_lookup_lt T k i tk ti Hwf Hk Hi Hlt). lia. }
    destruct (decide (j < k)) as [Hlt|?]; [|lia].
    pose proof (tokens_wf_lookup_lt T j k tj tk Hwf Hj Hk Hlt). lia.
  - intros [Hik Hkj]. exists (start tk). split; [lia|].
    assert (start ti ≤ start tk)%Z.
    { destruct (decide (i = k)) as [->|?]; [by simplify_eq|].
      pose proof (tokens_wf_nonempty T i ti Hwf Hi).
      pose proof (tokens_wf_lookup_lt T i k ti tk Hwf Hi Hk). lia. }
    assert (end_ tk ≤ end_ tj)%Z.
    { destruct (decide (k = j)) as [->|?]; [by simplify_eq|].
      pose proof (tokens_wf_nonempty T j tj Hwf Hj).
      pose proof (tokens_wf_lookup_lt T k j tk tj Hwf Hk Hj). lia. }
    lia.
Qed.

Lemma classic_overlaps t s e : overlaps t s e ∨ ¬ overlaps t s e.
Proof.
  unfold overlaps.
  destruct (decide (Z.max (start t) s < Z.min (end_ t) e)%Z) as [Hlt|Hge].
  - left. exists (Z.max (start t) s). lia.
  - right. intros (c & Hc1 & Hc2). lia.
Qed.

Lemma prefixed_not_plain prefix label tag :
  prefix ∈ BILOU_PREFIXES → tag = "-" ∨ tag = "O" → prefix +:+ label ≠ tag.
Proof.
  unfold BILOU_PREFIXES. rewrite !elem_of_cons, elem_of_nil.
  intros [->|[->|[->|[->|[]]]]] [->| ->]; by cbv.
Qed.
End single_entity.

(** C3 (as amended). For well-formed tokens (non-empty, in order, not
    overlapping) and a single entity [(s, e, label)] with [s < e]: when [s] is
    the start of token [i] and [e] the end of token [j], then [i ≤ j] and the
    result tags token [i] with [U-label] if [i = j], and otherwise [i] with
    [B-label], [j] with [L-label] and every token strictly between with
    [I-label]; all remaining tokens are ["O"]. For every token sequence
    and every span: when [s] is no token's start or [e] is no token's end, every
    token meeting [[s, e)] keeps the sentinel ["-"], every other token is
    ["O"], and no prefixed form of the label occurs in the result. *)
Theorem C3_single_entity_tags (T : list Token) (s e : Z) (label : string) :
  (tokens_wf T → (s < e)%Z →
   ∀ i j ti tj,
     T !! i = Some ti → T !! j = Some tj → start ti = s → end_ tj = e →
     ∃ tags,
       Bilou.bilou_tags_from_offsets T [(s, e, label)] = Ok tags ∧
       length tags = length T ∧
       i ≤ j ∧
       (i = j → tags !! i = Some ("U-" +:+ label)) ∧
       (i < j →
        tags !! i = Some ("B-" +:+ label) ∧
        tags !! j = Some ("L-" +:+ label) ∧
        ∀ k, i < k < j → tags !! k = Some ("I-" +:+ label)) ∧
       (∀ k, k < length T → k < i ∨ j < k → tags !! k = Some "O")) ∧
  ((∀ t, t ∈ T → start t ≠ s) ∨ (∀ t, t ∈ T → end_ t ≠ e) →
   ∃ tags,
     Bilou.bilou_tags_from_offsets T [(s, e, label)] = Ok tags ∧
     length tags = length T ∧
     (∀ k t, T !! k = Some t →
             (overlaps t s e → tags !! k = Some "-") ∧
             (¬ overlaps t s e → tags !! k = Some "O")) ∧
     (∀ prefix, prefix ∈ Bilou.BILOU_PREFIXES → prefix +:+ label ∉ tags)).
Proof.
  destruct (bilou_tags_from_offsets_spec T [(s, e, label)])
    as (bilou & tags & Hb & Hblen & Ht & Hlen & Hlook).
  assert (∀ k t, T !! k = Some t →
            (overlaps t s e → tags !! k = bilou !! k) ∧
            (¬ overlaps t s e → tags !! k = Some "O")) as Hcases.
  { intros k t Hk. rewrite (Hlook k t Hk).
    destruct (Bilou.token_hits _ t) eqn:Hhit.
    - apply token_hits_single in Hhit. tauto.
    - split; [|done]. intros Ho.
      pose proof (proj2 (token_hits_single s e label t) Ho). congruence. }
  clear Hlook. split.
  - (* both boundaries align *)
    intros Hwf Hse i j ti tj Hi Hj <- <-.
    assert (i ≤ j) as Hij.
    { destruct (decide (i ≤ j)) as [|Hn]; [done|].
      pose proof (tokens_wf_lookup_lt T j i tj ti Hwf Hj Hi). lia. }
    assert (∀ k, k < length T → i ≤ k ≤ j → tags !! k = bilou !! k) as Hin.
    { intros k Hk Hikj. destruct (lookup_lt_is_Some_2 T k Hk) as [tk Htk].
      apply (Hcases k tk Htk).
      by apply (overlaps_aligned T i j ti tj k tk). }
    assert (∀ k, k < length T → k < i ∨ j < k → tags !! k = Some "O") as Hout.
    { intros k Hk Hikj. destruct (lookup_lt_is_Some_2 T k Hk) as [tk Htk].
      apply (Hcases k tk Htk).
      rewrite (overlaps_aligned T i j ti tj k tk) by done. lia. }
    pose proof (lookup_lt_Some _ _ _ Hi) as Hilen.
    pose proof (lookup_lt_Some _ _ _ Hj) as Hjlen.
    exists tags. split_and!; [done..| | |done].
    + (* one token *)
      intros <-. rewrite Hin by lia.
      rewrite handle_entities_single in Hb.
      rewrite (start_index_wf T i ti Hwf Hi), (end_index_wf T i tj Hwf Hj) in Hb.
      rewrite decide_True in Hb by done.
      rewrite setitem_ok in Hb by (by rewrite length_fmap).
      simpl in Hb. injection Hb as <-.
      apply list_lookup_insert_eq. by rewrite length_fmap.
    + (* several tokens *)
      intros Hlt.
      rewrite handle_entities_single in Hb.
      rewrite (start_index_wf T i ti Hwf Hi), (end_index_wf T j tj Hwf Hj) in Hb.
      rewrite decide_False in Hb by lia.
      rewrite setitem_ok in Hb by (by rewrite length_fmap).
      simpl in Hb.
      destruct (foldlM_setitem ("I-" +:+ label) (range_nat (S i) j)
                  (<[i:="B-" +:+ label]> ((fun _ => "-") <$> T)))
        as (b2 & Hb2 & Hb2len & Hb2look).
      { apply Forall_forall. intros k [Hk1 Hk2]%elem_of_seq.
        rewrite length_insert, length_fmap. lia. }
      rewrite Hb2 in Hb. simpl in Hb.
      rewrite length_insert, length_fmap in Hb2len.
      rewrite setitem_ok in Hb by lia. simpl in Hb. injection Hb as <-.
      split_and!.
      * rewrite Hin by lia. rewrite list_lookup_insert_ne by lia.
        rewrite Hb2look, decide_False.
        -- apply list_lookup_insert_eq. by rewrite length_fmap.
        -- unfold range_nat. rewrite elem_of_seq. lia.
      * rewrite Hin by lia. apply list_lookup_insert_eq. lia.
      * intros k Hk. rewrite Hin by lia. rewrite list_lookup_insert_ne by lia.
        rewrite Hb2look, decide_True.
        -- rewrite list_lookup_insert_ne by lia. rewrite list_lookup_fmap.
           destruct (lookup_lt_is_Some_2 T k) as [tk ->]; [lia|done].
        -- unfold range_nat. rewrite elem_of_seq. lia.
  - (* a boundary does not align: the entity phase changes nothing *)
    intros Hmiss.
    assert (bilou = (fun _ => "-") <$> T) as ->.
    { rewrite handle_entities_single in Hb.
      destruct Hmiss as [Hm|Hm].
      - rewrite (start_index_None T s Hm) in Hb. by injection Hb.
      - rewrite (end_index_None T e Hm) in Hb.
        destruct (Bilou.start_pos_to_token_idx T !! s); by injection Hb. }
    assert (∀ k t, T !! k = Some t →
              (overlaps t s e → tags !! k = Some "-") ∧
              (¬ overlaps t s e → tags !! k = Some "O")) as Hres.
    { intros k t Hk. destruct (Hcases k t Hk) as [H1 H2]. split; [|done].
      intros Ho. rewrite (H1 Ho), list_lookup_fmap, Hk. done. }
    exists tags. split_and!; [done..|].
    intros prefix Hp (k & Hk)%list_elem_of_lookup_1.
    destruct (lookup_lt_is_Some_2 T k) as [t Htk].
    { rewrite <- Hlen. by eapply lookup_lt_Some. }
    destruct (Hres k t Htk) as [H1 H2].
    apply (prefixed_not_plain prefix label (prefix +:+ label) Hp); [|done].
    destruct (classic_overlaps t s e) as [Ho|Ho].
    + rewrite (H1 Ho) in Hk. injection Hk as <-. by left.
    + rewrite (H2 Ho) in Hk. injection Hk as <-. by right.
Qed.

Lemma sample_tokens_wf : tokens_wf sample_tokens.
Proof.
  split; unfold sample_tokens.
  - repeat constructor; simpl; lia.
  - repeat constructor; simpl; lia.
Qed.

Lemma C3_single_entity_tags_witness :
  (∃ tags,
     Bilou.bilou_tags_from_offsets sample_tokens [(7, 20, "city")]%Z = Ok tags ∧
     tags !! 2 = Some "B-city" ∧ tags !! 3 = Some "I-city" ∧
     tags !! 4 = Some "L-city" ∧ tags !! 0 = Some "O") ∧
  (∃ tags,
     Bilou.bilou_tags_from_offsets sample_tokens [(8, 20, "city")]%Z = Ok tags ∧
     tags !! 2 = Some "-" ∧ tags !! 0 = Some "O").
Proof.
  split.
  - destruct (C3_single_entity_tags sample_tokens 7 20 "city") as [Haligned _].
    destruct (Haligned sample_tokens_wf ltac:(lia) 2 4 _ _
                eq_refl eq_refl eq_refl eq_refl)
      as (tags & Ht & _ & _ & _ & HBL & HO).
    destruct HBL as (HB & HL & HI); [lia|].
    exists tags. split_and!; [done|done|apply HI; lia|done|apply HO; simpl; lia].
  - destruct (C3_single_entity_tags sample_tokens 8 20 "city") as [_ Hmiss].
    destruct Hmiss as (tags & Ht & _ & Hres & _).
    { left. intros t Hin. unfold sample_tokens in Hin.
      rewrite !elem_of_cons, elem_of_nil in Hin.
      destruct Hin as [->|[->|[->|[->|[->|[]]]]]]; simpl; lia. }
    exists tags. split_and!; [done|..].
    + apply (Hres 2 (mkToken "new" 7 10) eq_refl).
      exists 8%Z. simpl. lia.
    + apply (Hres 0 (mkToken "fly" 0 3) eq_refl).
      intros (c & Hc1 & Hc2). simpl in Hc1. lia.
Defined.

(** C3 as stated fails for a span whose offsets are swapped: [4] is the start
    of the second token and [3] the end of the first, yet the result carries
    no tag of the entity at all. *)
Lemma C3_counterexample :
  let T := [mkToken "fly" 0 3; mkToken "to" 4 6] in
  (∃ ti, T !! 1 = Some ti ∧ start ti = 4%Z) ∧
  (∃ tj, T !! 0 = Some tj ∧ end_ tj = 3%Z) ∧
  Bilou.bilou_tags_from_offsets T [(4, 3, "x")]%Z = Ok ["O"; "O"] ∧
  ¬ (∃ tags,
       Bilou.bilou_tags_from_offsets T [(4, 3, "x")]%Z = Ok tags ∧
       tags !! 1 = Some "B-x" ∧ tags !! 0 = Some "L-x").
Proof.
  assert (Bilou.bilou_tags_from_offsets
            [mkToken "fly" 0 3; mkToken "to" 4 6] [(4, 3, "x")]%Z
          = Ok ["O"; "O"]) as Hrun by (by vm_compute).
  simpl. split_and!.
  - by eexists.
  - by eexists.
  - done.
  - intros (tags & Ht & HB & _). rewrite Hrun in Ht. injection Ht as <-. done.
Qed.

(** ** Tags to ids *)

(** C9 (as amended). With ["O"] in the dictionary, [tags_to_ids] does not
    raise on a message that carries a non-empty BILOU tag sequence or a text
    token sequence: in the first case every tag found in the dictionary maps to
    its id and every other tag (the sentinel ["-"] included) to the id of
    ["O"]; without a (non-empty) tag sequence the result is the id of ["O"]
    once per text token. *)
Theorem C9_tags_to_ids (message : Message) (tag_id_dict : gmap string Z) (o : Z) :
  tag_id_dict !! "O" = Some o →
  (∀ tags, bilou_entities message = Some tags → tags ≠ [] →
     Bilou.tags_to_ids message tag_id_dict
     = Ok ((fun tag => default o (tag_id_dict !! tag)) <$> tags)) ∧
  (∀ toks, truthy (bilou_entities message) = false → tokens message = Some toks →
     Bilou.tags_to_ids message tag_id_dict = Ok (replicate (length toks) o)).
Proof.
  intros HO. unfold Bilou.tags_to_ids. split.
  - intros tags -> Hne. destruct tags as [|tag tags]; [done|].
    cbn [truthy default]. apply mapM_result_ok. intros t _.
    unfold getitem. case_decide as Hin.
    + by destruct Hin as [v ->].
    + rewrite HO. apply eq_None_not_Some in Hin. by rewrite Hin.
  - intros toks -> ->.
    rewrite (mapM_result_ok _ (fun _ => o)).
    + f_equal. induction toks as [|t toks IH]; [done|]. simpl. by f_equal.
    + intros t _. unfold getitem. by rewrite HO.
Qed.

Lemma C9_tags_to_ids_witness :
  Bilou.tags_to_ids (tagged_message ["B-city"; "-"; "U-zip"])
    (<["B-city" := 1%Z]> {["O" := 0%Z]})
  = Ok [1; 0; 0]%Z.
Proof.
  destruct (C9_tags_to_ids (tagged_message ["B-city"; "-"; "U-zip"])
              (<["B-city" := 1%Z]> {["O" := 0%Z]}) 0%Z ltac:(by vm_compute))
    as [Htags _].
  exact (Htags ["B-city"; "-"; "U-zip"] eq_refl ltac:(discriminate)).
Defined.

(** C9 as stated fails on a message with neither a tag sequence nor a token
    sequence: iterating over the missing tokens raises. *)
Lemma C9_counterexample :
  ({["O" := 0%Z]} : gmap string Z) !! "O" = Some 0%Z ∧
  Bilou.tags_to_ids (bare_message "hello") {["O" := 0%Z]} = Raise TypeError.
Proof. split; by vm_compute. Qed.

(** ** The tag-id dictionary *)

Section dict_of_facts.
Context `{Countable K} {V : Type}.

Lemma dict_of_snoc (kvs : list (K * V)) kv :
  dict_of (kvs ++ [kv]) = <[kv.1 := kv.2]> (dict_of kvs).
Proof. unfold dict_of. by rewrite foldl_app. Qed.

(** When no key is listed with two different values, the dictionary holds
    exactly the listed entries. *)
Lemma dict_of_lookup (kvs : list (K * V)) k v :
  (∀ k v1 v2, (k, v1) ∈ kvs → (k, v2) ∈ kvs → v1 = v2) →
  dict_of kvs !! k = Some v ↔ (k, v) ∈ kvs.
Proof.
  induction kvs as [|[k' v'] kvs IH] using rev_ind; intros Hfun.
  - unfold dict_of. simpl. rewrite lookup_empty, elem_of_nil.
    split; [done|tauto].
  - rewrite dict_of_snoc, elem_of_app, list_elem_of_singleton. simpl.
    rewrite lookup_insert. case_decide as Hk.
    + subst k'. split.
      * intros [= ->]. by right.
      * intros [Hin|[= ->]]; [|done]. f_equal.
        apply (Hfun k); apply elem_of_app; [right; left|by left].
    + rewrite IH.
      * split; [by left|]. intros [?|[= -> ->]]; done.
      * intros k0 v1 v2 H1 H2. apply (Hfun k0); apply elem_of_app; by left.
Qed.
End dict_of_facts.

Section tag_id_dict_facts.
Import Bilou.

Lemma elem_of_enumerate {A} (l : list A) i x :
  (i, x) ∈ enumerate l ↔ l !! i = Some x.
Proof.
  unfold enumerate. rewrite elem_of_lookup_imap. split.
  - by intros (i' & x' & [= -> ->] & Hl).
  - intros Hl. by exists i, x.
Qed.

Lemma elem_of_tag_id_entries labels key id :
  (key, id) ∈ tag_id_entries labels ↔
  ∃ k label p prefix,
    labels !! k = Some label ∧ BILOU_PREFIXES !! p = Some prefix ∧
    key = prefix +:+ label ∧ id = (4 * Z.of_nat k + Z.of_nat p + 1)%Z.
Proof.
  unfold tag_id_entries. rewrite list_elem_of_bind. split.
  - intros ([k label] & Hin & Hk%elem_of_enumerate).
    apply list_elem_of_bind in Hin as ([p prefix] & Hin & Hp%elem_of_enumerate).
    apply list_elem_of_singleton in Hin as [= -> ->].
    exists k, label, p, prefix. split_and!; [done..|]. simpl. lia.
  - intros (k & label & p & prefix & Hk & Hp & -> & ->).
    exists (k, label). split; [|by apply elem_of_enumerate].
    apply list_elem_of_bind. exists (p, prefix).
    split; [|by apply elem_of_enumerate].
    apply list_elem_of_singleton. f_equal. simpl. lia.
Qed.

Lemma prefixed_inj prefix1 prefix2 label1 label2 :
  prefix1 ∈ BILOU_PREFIXES → prefix2 ∈ BILOU_PREFIXES →
  prefix1 +:+ label1 = prefix2 +:+ label2 → prefix1 = prefix2 ∧ label1 = label2.
Proof.
  unfold BILOU_PREFIXES. rewrite !elem_of_cons, !elem_of_nil.
  intros [->|[->|[->|[->|[]]]]] [->|[->|[->|[->|[]]]]] Heq;
    cbv in Heq; by simplify_eq.
Qed.

Lemma prefixed_not_O prefix label :
  prefix ∈ BILOU_PREFIXES → prefix +:+ label ≠ "O".
Proof. intros Hp. apply prefixed_not_plain; [done|by right]. Qed.

Lemma BILOU_PREFIXES_NoDup : NoDup BILOU_PREFIXES.
Proof. compute_done. Qed.

Lemma tag_id_entries_functional labels key id1 id2 :
  NoDup labels →
  (key, id1) ∈ tag_id_entries labels → (key, id2) ∈ tag_id_entries labels →
  id1 = id2.
Proof.
  intros Hnd (k1 & l1 & p1 & x1 & Hk1 & Hp1 & -> & ->)%elem_of_tag_id_entries
              (k2 & l2 & p2 & x2 & Hk2 & Hp2 & Heq & ->)%elem_of_tag_id_entries.
  apply prefixed_inj in Heq as [-> ->];
    [|by eapply list_elem_of_lookup_2..].
  rewrite (proj1 (NoDup_alt labels) Hnd k1 k2 l2 Hk1 Hk2).
  by rewrite (proj1 (NoDup_alt BILOU_PREFIXES) BILOU_PREFIXES_NoDup p1 p2 x2 Hp1 Hp2).
Qed.

(** The dictionary built from an enumeration of the distinct tags holds
    ["O"] with id [0] and, for the label at position [k] of the sorted
    enumeration and the prefix at position [p], the id [4k + p + 1]. *)
Lemma tag_id_dict_of_lookup enum key id :
  NoDup enum →
  tag_id_dict_of enum !! key = Some id ↔
  key = "O" ∧ id = 0%Z ∨
  ∃ k label p prefix,
    sorted enum !! k = Some label ∧ BILOU_PREFIXES !! p = Some prefix ∧
    key = prefix +:+ label ∧ id = (4 * Z.of_nat k + Z.of_nat p + 1)%Z.
Proof.
  intros Hnd. unfold tag_id_dict_of. fold (tag_id_entries (sorted enum)).
  assert (NoDup (sorted enum)) as Hnds.
  { unfold sorted. by rewrite merge_sort_Permutation. }
  rewrite lookup_insert. case_decide as Hkey.
  - subst key. split.
    + intros [= <-]. by left.
    + intros [[_ ->]|(k & label & p & prefix & _ & Hp & Heq & _)]; [done|].
      symmetry in Heq. apply prefixed_not_O in Heq; [done|].
      by eapply list_elem_of_lookup_2.
  - rewrite dict_of_lookup by (intros ???; by apply tag_id_entries_functional).
    rewrite elem_of_tag_id_entries. split; [by right|].
    intros [[-> _]|?]; done.
Qed.

Lemma elem_of_distinct_tags training_examples x :
  x ∈ distinct_tags training_examples ↔
  x ≠ "O" ∧
  ∃ example tags tag,
    example ∈ training_examples ∧ bilou_entities example = Some tags ∧
    tag ∈ tags ∧ x = entity_name_from_tag tag.
Proof.
  unfold distinct_tags, stripped_tags.
  rewrite elem_of_difference, elem_of_list_to_set, elem_of_singleton,
    list_elem_of_bind.
  split.
  - intros [(example & Hx & Hex) Hne]. split; [done|].
    destruct (bilou_entities example) as [[|tag0 tags]|] eqn:Hb;
      cbn [truthy default] in Hx;
      [by apply elem_of_nil in Hx| |by apply elem_of_nil in Hx].
    apply list_elem_of_fmap in Hx as (tag & -> & Htag).
    by exists example, (tag0 :: tags), tag.
  - intros [Hne (example & tags & tag & Hex & Hb & Htag & ->)]. split; [|done].
    exists example. split; [|done]. rewrite Hb.
    destruct tags as [|tag0 tags]; [by apply elem_of_nil in Htag|].
    cbn [truthy default]. apply list_elem_of_fmap. by exists tag.
Qed.

Lemma sorted_unique enum1 enum2 : enum1 ≡ₚ enum2 → sorted enum1 = sorted enum2.
Proof.
  intros Hp. unfold sorted.
  apply (Sorted_unique String.le); [apply Sorted_merge_sort; apply _..|].
  by rewrite !merge_sort_Permutation.
Qed.
End tag_id_dict_facts.

(** C5. [build_tag_id_dict] collects the prefix-stripped tags of the
    training examples' BILOU tag sequences other than ["O"], sorts them, and
    gives the label at (0-based) position [k] with the prefix at position [p]
    of [B-, I-, U-, L-] the id [4k + p + 1] (so ids run consecutively from 1);
    ["O"] always has id [0], and the dictionary has no other entry. The result
    does not depend on the order in which the set of distinct tags is
    enumerated, so two runs on the same corpus agree. *)
Theorem C5_build_tag_id_dict (training_examples : list Message) :
  let labels := Bilou.sorted (elements (Bilou.distinct_tags training_examples)) in
  let tag_id_dict := Bilou.build_tag_id_dict training_examples in
  (∀ x, x ∈ labels ↔
        x ≠ "O" ∧
        ∃ example tags tag,
          example ∈ training_examples ∧ bilou_entities example = Some tags ∧
          tag ∈ tags ∧ x = Bilou.entity_name_from_tag tag) ∧
  NoDup labels ∧
  StronglySorted String.le labels ∧
  tag_id_dict !! "O" = Some 0%Z ∧
  (∀ k label p prefix,
     labels !! k = Some label → Bilou.BILOU_PREFIXES !! p = Some prefix →
     tag_id_dict !! (prefix +:+ label) = Some (4 * Z.of_nat k + Z.of_nat p + 1)%Z) ∧
  (∀ key id,
     tag_id_dict !! key = Some id →
     key = "O" ∧ id = 0%Z ∨
     ∃ k label p prefix,
       labels !! k = Some label ∧ Bilou.BILOU_PREFIXES !! p = Some prefix ∧
       key = prefix +:+ label ∧ id = (4 * Z.of_nat k + Z.of_nat p + 1)%Z) ∧
  (∀ enum,
     enum ≡ₚ elements (Bilou.distinct_tags training_examples) →
     Bilou.tag_id_dict_of enum = tag_id_dict).
Proof.
  intros labels tag_id_dict.
  pose proof (NoDup_elements (Bilou.distinct_tags training_examples)) as Hnd.
  split_and!.
  - intros x. unfold labels, Bilou.sorted.
    rewrite merge_sort_Permutation, elem_of_elements.
    apply elem_of_distinct_tags.
  - unfold labels, Bilou.sorted. by rewrite merge_sort_Permutation.
  - apply StronglySorted_merge_sort; apply _.
  - apply tag_id_dict_of_lookup; [done|]. by left.
  - intros k label p prefix Hk Hp.
    apply tag_id_dict_of_lookup; [done|]. right. by exists k, label, p, prefix.
  - intros key id Hlook. by apply tag_id_dict_of_lookup in Hlook.
  - intros enum Hperm. unfold tag_id_dict, Bilou.build_tag_id_dict, Bilou.tag_id_dict_of.
    by rewrite (sorted_unique _ _ Hperm).
Qed.

Lemma sample_corpus_tags : elements (Bilou.distinct_tags sample_corpus) ≡ₚ ["city"; "age"].
Proof.
  assert (Bilou.stripped_tags sample_corpus = ["O";"city";"city";"age";"O"]) as H
    by (by vm_compute).
  apply NoDup_Permutation; [apply NoDup_elements|compute_done|].
  intros x. rewrite elem_of_elements. unfold Bilou.distinct_tags. rewrite H.
  rewrite elem_of_difference, elem_of_list_to_set, elem_of_singleton.
  rewrite !elem_of_cons, elem_of_nil. split.
  - intros [[->|[->|[->|[->|[->|[]]]]]] Hne]; tauto.
  - intros [->|[->|[]]]; split; try discriminate; tauto.
Qed.

Lemma C5_build_tag_id_dict_witness :
  Bilou.build_tag_id_dict sample_corpus !! "O" = Some 0%Z ∧
  Bilou.build_tag_id_dict sample_corpus !! "B-age" = Some 1%Z ∧
  Bilou.build_tag_id_dict sample_corpus !! "L-city" = Some 8%Z ∧
  Bilou.tag_id_dict_of ["city"; "age"] = Bilou.build_tag_id_dict sample_corpus ∧
  Bilou.tag_id_dict_of ["age"; "city"] = Bilou.build_tag_id_dict sample_corpus.
Proof.
  destruct (C5_build_tag_id_dict sample_corpus) as (_ & _ & _ & HO & Hid & _ & Horder).
  split_and!.
  - exact HO.
  - apply (Hid 0 "age" 0 "B-"); by vm_compute.
  - apply (Hid 1 "city" 3 "L-"); by vm_compute.
  - apply Horder. by rewrite sample_corpus_tags.
  - apply Horder. rewrite sample_corpus_tags. apply Permutation_swap.
Defined.

(** ** The featurizer: text channels and tokenizer *)

(** C10. [_get_message_intent] joins the intent-token texts with single
    spaces, but a message without intent tokens makes it raise: the
    comprehension iterates over [None]. The sibling [_get_message_response]
    does guard the missing annotation. *)
Theorem C10_get_message_intent_missing_tokens :
  (∀ message toks,
     intent_tokens message = Some toks →
     CountVectors._get_message_intent message = Ok (join " " (text <$> toks))) ∧
  CountVectors._get_message_intent (bare_message "hello") = Raise TypeError ∧
  CountVectors._get_message_response (bare_message "hello") = " ".
Proof.
  split_and!; [|done..].
  intros message toks Htoks. unfold CountVectors._get_message_intent. by rewrite Htoks.
Qed.

Lemma C10_get_message_intent_witness :
  CountVectors._get_message_intent (sample_example "hello world" ["ask"; "weather"] [])
  = Ok "ask weather".
Proof.
  destruct C10_get_message_intent_missing_tokens as [Hjoin _].
  exact (Hjoin (sample_example "hello world" ["ask"; "weather"] []) _ eq_refl).
Defined.

Section tokenizer_facts.
Import CountVectors.

(** The number substitution and the token pattern come first, whatever the
    out-of-vocabulary settings. *)
Lemma tokenizer_no_OOV self text :
  truthy_str (OOV_token self) = None →
  _tokenizer self text = token_pattern self (sub_numbers text).
Proof. intros Hoov. unfold _tokenizer. by rewrite Hoov. Qed.

(** With one shared, fitted vectorizer, unknown tokens become the marker
    exactly when the marker is in the vocabulary. *)
Lemma tokenizer_shared_fitted self oov vocabulary_ text :
  truthy_str (OOV_token self) = Some oov →
  vect self = VShared (Some vocabulary_) →
  _tokenizer self text =
  if decide (oov ∈ vocabulary_) then
    (fun t => if decide (t ∈ vocabulary_) then t else oov)
      <$> token_pattern self (sub_numbers text)
  else token_pattern self (sub_numbers text).
Proof. intros Hoov Hv. unfold _tokenizer. by rewrite Hoov, Hv. Qed.

(** Before fitting, the listed out-of-vocabulary words become the marker. *)
Lemma tokenizer_unfitted self oov text :
  truthy_str (OOV_token self) = Some oov →
  vect_vocabulary_ (vect self) = None →
  _tokenizer self text =
  (fun t => if decide (t ∈ OOV_words self) then oov else t)
    <$> token_pattern self (sub_numbers text).
Proof.
  intros Hoov Hv. unfold _tokenizer. rewrite Hoov, Hv.
  destruct (OOV_words self) as [|w ws] eqn:Hw; [|done].
  induction (token_pattern self (sub_numbers text)) as [|t l IH]; [done|].
  rewrite fmap_cons, <- IH. by f_equal.
Qed.

Lemma tokenizer_logger self r : _tokenizer (logger self r) = _tokenizer self.
Proof. done. Qed.

Lemma tokenizer_check_OOV self examples :
  _tokenizer (_check_OOV_present self examples) = _tokenizer self.
Proof.
  unfold _check_OOV_present. by repeat case_match.
Qed.
End tokenizer_facts.

(** C7. The tokenizer replaces all-digit tokens by [__NUMBER__] and then
    applies the token pattern. Its inference-time branch tests
    [hasattr(self.vect, "vocabulary_")], which is false whenever [self.vect]
    is the list of two vectorizers of separate-vocabulary mode: there the
    tokenizer of a trained component behaves as that of an untrained one,
    whatever the vocabularies. On the sample data the marker ["oov"] is in
    the fitted text vocabulary and ["friend"] is not, yet ["friend"] is kept
    in separate-vocabulary mode; with a shared vocabulary it becomes
    ["oov"]. *)
Theorem C7_tokenizer_separate_vocab_keeps_unknown_tokens :
  (∀ self vocabulary_0 vocabulary_1 text,
     CountVectors._tokenizer (set_vect self (VSeparate vocabulary_0 vocabulary_1)) text
     = CountVectors._tokenizer (set_vect self (VSeparate None None)) text) ∧
  (let self := sample_trained (sample_featurizer false false false (Some "oov") []) in
   (∃ vocabulary_0 vocabulary_1,
      vect self = VSeparate (Some vocabulary_0) (Some vocabulary_1) ∧
      ("oov" ∈ vocabulary_0) ∧ ("friend" ∉ vocabulary_0) ∧ ("friend" ∉ vocabulary_1)) ∧
   CountVectors._tokenizer self "hello friend 42 7" =
     ["hello"; "friend"; "__NUMBER__"; "__NUMBER__"]) ∧
  (let self := sample_trained (sample_featurizer false true false (Some "oov") []) in
   CountVectors._tokenizer self "hello friend 42 7" =
     ["hello"; "oov"; "__NUMBER__"; "__NUMBER__"]).
Proof.
  split; [done|]. split.
  - split; [|by vm_compute].
    eexists _, _. split; [by vm_compute|]. split_and!; compute_done.
  - by vm_compute.
Qed.

(** ** Sequence features *)

Section create_sequence_facts.
Context `{External}.
Import CountVectors.

Lemma py_max_cons n l : py_max (n :: l) = Ok (max_list (n :: l)).
Proof.
  unfold py_max. f_equal. revert n.
  induction l as [|m l IH]; intros n; simpl; [lia|].
  rewrite IH. simpl. lia.
Qed.

(** A loop that rewrites [X[i]] from the [i]-th input, for every input. *)
Lemma foldlM_update_each {A B} (g : A → B → A) (l : list B) (X0 : list A) :
  length l ≤ length X0 →
  ∃ X,
    foldlM (fun X (it : nat * B) =>
              match X !! it.1 with
              | Some Xi => Ok (<[it.1 := g Xi it.2]> X)
              | None => Raise IndexError
              end) X0 (enumerate l) = Ok X ∧
    length X = length X0 ∧
    ∀ i, X !! i = match l !! i with
                  | Some b => (fun a => g a b) <$> X0 !! i
                  | None => X0 !! i
                  end.
Proof.
  induction l as [|b l IH] using rev_ind; intros Hlen.
  - exists X0. by split_and!.
  - rewrite length_app in Hlen. simpl in Hlen.
    destruct IH as (X & HX & HXlen & Hlook); [lia|].
    rewrite enumerate_snoc, foldlM_app, HX. simpl.
    destruct (lookup_lt_is_Some_2 X (length l)) as [Xi HXi]; [lia|].
    rewrite HXi. eexists. split_and!; [done|by rewrite length_insert|].
    intros i. destruct (decide (i = length l)) as [->|Hne].
    + rewrite list_lookup_insert_eq by lia.
      rewrite lookup_app_r, Nat.sub_diag by lia. simpl.
      rewrite Hlook, lookup_ge_None_2 in HXi by lia. by rewrite HXi.
    + rewrite list_lookup_insert_ne by done. rewrite Hlook.
      destruct (decide (i < length l)) as [Hi|Hi].
      * by rewrite lookup_app_l.
      * rewrite (lookup_ge_None_2 l) by lia.
        rewrite lookup_app_r by lia.
        destruct (i - length l) as [|n] eqn:Hd; [lia|done].
Qed.

Lemma assign_rows_padding (pad : list Z) n (x : list (list Z)) :
  length x ≤ n →
  assign_rows (replicate n pad) x = x ++ replicate (n - length x) pad.
Proof.
  intros Hlen. unfold assign_rows. rewrite length_replicate.
  by rewrite take_ge, drop_replicate by lia.
Qed.

Lemma length_transform_row self vocabulary_ doc :
  length (transform_row self vocabulary_ doc) = length vocabulary_.
Proof. unfold transform_row. by rewrite length_fmap. Qed.
End create_sequence_facts.

(** C6 (as amended). In dense sequence mode, for every non-empty batch of
    texts, [_create_sequence] returns one matrix per text; every matrix has as
    many rows as the longest whitespace-token sequence of the batch and every
    row has one entry per vocabulary term; the matrix of a text holds the
    count rows of its tokens followed by rows filled with [-1]. In sparse
    sequence mode, for every batch, the result is the unpadded list of the
    per-text count matrices. *)
Theorem C6_create_sequence `{External} (self : CountVectorsFeaturizer)
    (vocabulary_ : Vocabulary) (texts : list string) :
  (sparse self = false → texts ≠ [] →
   let seq_len := max_list ((fun text => length (split text)) <$> texts) in
   ∃ X,
     CountVectors._create_sequence self vocabulary_ texts = Ok X ∧
     length X = length texts ∧
     Forall (fun Xi => length Xi = seq_len ∧
                       Forall (fun row => length row = length vocabulary_) Xi) X ∧
     ∀ i text,
       texts !! i = Some text →
       length (split text) ≤ seq_len ∧
       X !! i = Some ((CountVectors.transform_row self vocabulary_ <$> split text)
                      ++ replicate (seq_len - length (split text))
                           (replicate (length vocabulary_) (-1)%Z))) ∧
  (sparse self = true →
   CountVectors._create_sequence self vocabulary_ texts
   = Ok ((fun text => CountVectors.transform_row self vocabulary_ <$> split text)
           <$> texts)).
Proof.
  split.
  - intros Hsparse Hne seq_len. unfold CountVectors._create_sequence.
    rewrite Hsparse.
    assert (CountVectors.py_max (length <$> (CountVectors._get_text_sequence <$> texts))
            = Ok seq_len) as ->.
    { destruct texts as [|text texts]; [done|].
      rewrite !fmap_cons, py_max_cons. unfold seq_len. f_equal.
      rewrite fmap_cons. simpl. f_equal. f_equal.
      by rewrite <- list_fmap_compose. }
    cbn [mbind result_bind].
    destruct (foldlM_update_each
                (fun Xi tokens =>
                   CountVectors.assign_rows Xi
                     (CountVectors.transform self vocabulary_ tokens))
                (CountVectors._get_text_sequence <$> texts)
                (replicate (length (CountVectors._get_text_sequence <$> texts))
                   (replicate seq_len (replicate (length vocabulary_) (-1)%Z))))
      as (X & HX & HXlen & Hlook).
    { by rewrite length_replicate. }
    rewrite length_replicate, length_fmap in HXlen.
    assert (∀ i text, texts !! i = Some text →
              length (split text) ≤ seq_len ∧
              X !! i = Some ((CountVectors.transform_row self vocabulary_ <$> split text)
                             ++ replicate (seq_len - length (split text))
                                  (replicate (length vocabulary_) (-1)%Z))) as Hrows.
    { intros i text Hi.
      assert (length (split text) ≤ seq_len) as Hle.
      { apply max_list_elem_of_le, list_elem_of_fmap.
        exists text. split; [done|]. by eapply list_elem_of_lookup_2. }
      split; [done|].
      rewrite Hlook, list_lookup_fmap, Hi. simpl.
      rewrite lookup_replicate_2 by (rewrite length_fmap; by eapply lookup_lt_Some).
      simpl. f_equal. unfold CountVectors._get_text_sequence, CountVectors.transform.
      rewrite assign_rows_padding by (by rewrite length_fmap).
      by rewrite length_fmap. }
    exists X. split_and!; [exact HX|done| |done].
    apply Forall_forall. intros Xi (i & Hi)%list_elem_of_lookup_1.
    destruct (lookup_lt_is_Some_2 texts i) as [text Htext].
    { rewrite <- HXlen. by eapply lookup_lt_Some. }
    destruct (Hrows i text Htext) as [Hle HXi].
    rewrite Hi in HXi. injection HXi as ->.
    split.
    + rewrite length_app, length_fmap, length_replicate. lia.
    + apply Forall_app. split.
      * apply Forall_fmap, Forall_forall. intros token _. simpl.
        apply length_transform_row.
      * apply Forall_replicate. by rewrite length_replicate.
  - intros Hsparse. unfold CountVectors._create_sequence. rewrite Hsparse.
    f_equal. by rewrite <- list_fmap_compose.
Qed.

Lemma C6_create_sequence_witness :
  let self := sample_featurizer true false false None [] in
  (∃ X,
     CountVectors._create_sequence (H := CountVectors.default_external true 1)
       self ["aa"; "bb"] ["aa bb aa"; "bb aa"] = Ok X ∧
     length X = 2 ∧
     X !! 1 = Some [[0; 1]; [1; 0]; [-1; -1]]%Z) ∧
  CountVectors._create_sequence (H := CountVectors.default_external true 1)
    (sample_featurizer true false true None []) ["aa"; "bb"] ["aa bb aa"; "bb aa"]
  = Ok [[[1; 0]; [0; 1]; [1; 0]]; [[0; 1]; [1; 0]]]%Z.
Proof.
  intros self. split.
  - destruct (C6_create_sequence (H := CountVectors.default_external true 1)
                self ["aa"; "bb"] ["aa bb aa"; "bb aa"]) as [Hdense _].
    destruct (Hdense eq_refl ltac:(discriminate)) as (X & HX & Hlen & _ & Hrows).
    exists X. split_and!; [done..|].
    by destruct (Hrows 1 "bb aa" eq_refl) as [_ ->].
  - destruct (C6_create_sequence (H := CountVectors.default_external true 1)
                (sample_featurizer true false true None [])
                ["aa"; "bb"] ["aa bb aa"; "bb aa"]) as [_ Hsparse].
    by rewrite (Hsparse eq_refl).
Defined.

(** C6 as stated fails on the empty batch in dense mode: [max] of no
    lengths raises. The batch of [process] is empty when the test data has
    no example. *)
Lemma C6_counterexample :
  CountVectors._create_sequence (H := CountVectors.default_external true 1)
    (sample_featurizer true false false None []) ["aa"; "bb"] []
  = Raise ValueError ∧
  CountVectors.process (H := CountVectors.default_external true 1)
    (sample_trained (sample_featurizer true false false None []))
    (bare_message "hello world") (Some [])
  = Raise ValueError.
Proof. split; by vm_compute. Qed.

(** ** Training and processing *)

Section train_facts.
Context `{External}.
Import CountVectors.

Lemma tokenizer_ext s s' :
  token_pattern s = token_pattern s' → OOV_token s = OOV_token s' →
  OOV_words s = OOV_words s' →
  vect_vocabulary_ (vect s) = vect_vocabulary_ (vect s') →
  _tokenizer s = _tokenizer s'.
Proof. intros H1 H2 H3 H4. unfold _tokenizer. by rewrite H1, H2, H3, H4. Qed.

Lemma fit_ext s s' corpus : _tokenizer s = _tokenizer s' → fit s corpus = fit s' corpus.
Proof. intros Heq. unfold fit. by rewrite Heq. Qed.

Lemma fit_cases s corpus :
  (∃ vocabulary_, fit s corpus = Ok vocabulary_) ∨ fit s corpus = Raise ValueError.
Proof. unfold fit. destruct (build_vocabulary _); eauto. Qed.

(** Replacing the vectorizers of a component without a fitted shared
    vectorizer by a list of two does not change what [fit] computes. *)
Lemma fit_set_vect_separate s v0 v1 corpus :
  vect_vocabulary_ (vect s) = None →
  fit (set_vect s (VSeparate v0 v1)) corpus = fit s corpus.
Proof. intros Hv. by apply fit_ext, tokenizer_ext. Qed.

Lemma check_OOV_present_cases s examples :
  _check_OOV_present s examples = s ∨
  ∃ r, _check_OOV_present s examples = logger s r.
Proof.
  unfold _check_OOV_present. repeat case_match; eauto.
Qed.

(** The three presence checks of [train] only add log records. *)
Lemma check_OOV_present_settings s examples :
  same_settings s (_check_OOV_present s examples).
Proof.
  destruct (check_OOV_present_cases s examples) as [->|[r ->]];
    by repeat split.
Qed.

Lemma same_settings_trans s1 s2 s3 :
  same_settings s1 s2 → same_settings s2 s3 → same_settings s1 s3.
Proof.
  intros (A1 & A2 & A3 & A4 & A5 & A6 & A7) (B1 & B2 & B3 & B4 & B5 & B6 & B7).
  unfold same_settings. split_and!; congruence.
Qed.

Lemma same_settings_tokenizer s s' : same_settings s s' → _tokenizer s' = _tokenizer s.
Proof.
  intros (_ & _ & _ & H1 & H2 & H3 & H4). apply tokenizer_ext; try done. by rewrite H4.
Qed.

Lemma create_sequence_cases s vocabulary_ texts :
  (∃ X, _create_sequence s vocabulary_ texts = Ok X) ∨
  _create_sequence s vocabulary_ texts = Raise ValueError.
Proof.
  unfold _create_sequence. destruct (sparse s); [by eauto|].
  destruct texts as [|text texts]; [by right|]. left.
  rewrite (fmap_cons _ text texts), (fmap_cons length), py_max_cons.
  cbn [mbind result_bind].
  destruct (foldlM_update_each
              (fun Xi tokens => assign_rows Xi (transform s vocabulary_ tokens))
              (_get_text_sequence text :: (_get_text_sequence <$> texts))
              (replicate (length (_get_text_sequence text :: (_get_text_sequence <$> texts)))
                 (replicate (max_list (length (_get_text_sequence text)
                                       :: (length <$> (_get_text_sequence <$> texts))))
                    (replicate (length vocabulary_) (-1)%Z))))
    as (X & HX & _).
  { by rewrite length_replicate. }
  exists X. exact HX.
Qed.

(** When a fit step raises, so does the [try] block, with [ValueError]. *)
Lemma fit_channels_raises self lem_exs lem_ints lem_resps :
  vect_vocabulary_ (vect self) = None →
  match sequence self, use_shared_vocab self with
  | false, true => fit self (lem_exs ++ lem_ints ++ lem_resps) = Raise ValueError
  | false, false =>
      fit self lem_exs = Raise ValueError ∨ fit self lem_ints = Raise ValueError ∨
      fit self lem_resps = Raise ValueError
  | true, true => fit self (lem_exs ++ lem_ints) = Raise ValueError
  | true, false =>
      fit self lem_exs = Raise ValueError ∨
      fit self (lem_ints ++ lem_resps) = Raise ValueError
  end →
  fit_channels self lem_exs lem_ints lem_resps = Raise ValueError.
Proof.
  intros Hv. unfold fit_channels.
  destruct (sequence self), (use_shared_vocab self); cbn [negb].
  - (* sequence, shared *)
    by intros ->.
  - (* sequence, separate *)
    intros Hfail.
    destruct (fit_cases self lem_exs) as [[v0 Hv0]| ->]; [|done].
    rewrite Hv0. cbn [mbind result_bind].
    destruct (create_sequence_cases (set_vect self (VSeparate (Some v0) None))
                v0 lem_exs) as [[X ->]| ->]; [|done].
    cbn [mbind result_bind]. rewrite fit_set_vect_separate by done.
    destruct Hfail as [Hf|Hf]; [congruence|]. by rewrite Hf.
  - (* bag of words, shared *)
    by intros ->.
  - (* bag of words, separate *)
    intros Hfail.
    destruct (fit_cases self lem_exs) as [[v0 Hv0]| ->]; [|done].
    rewrite Hv0. cbn [mbind result_bind]. rewrite fit_set_vect_separate by done.
    destruct (fit_cases self lem_ints) as [[v1 Hv1]| ->]; [|done].
    rewrite Hv1. cbn [mbind result_bind].
    rewrite (fit_set_vect_separate (set_vect self _)) by done.
    rewrite fit_set_vect_separate by done.
    destruct Hfail as [Hf|[Hf|Hf]]; [congruence..|]. by rewrite Hf.
Qed.

Lemma train_init_unfitted self spacy_nlp :
  vect_vocabulary_ (vect (train_init self spacy_nlp)) = None.
Proof. unfold train_init. simpl. by destruct (use_shared_vocab _). Qed.

(** Without a vectorizer, [process] logs an error and changes nothing
    else. *)
Lemma process_untrained s message test_data :
  vect s = VNone →
  ∃ s', process s message test_data = Ok (s', message, None) ∧
        vect s' = VNone ∧ ∃ msg, log s' = log s ++ [LogError msg].
Proof.
  intros Hv. unfold process. rewrite Hv.
  eexists. split_and!; [done..|]. by eexists.
Qed.
End train_facts.

(** C2. Whenever the text channels of the training examples can be read and
    some fit step of [train] raises the empty-vocabulary error, [train]
    returns normally, the component has no vectorizer, and the examples are
    returned unchanged; and on any component without a vectorizer, [process]
    returns normally, appends an error record to the log, leaves the message
    unchanged and keeps the component without a vectorizer, so that this also
    holds for every later call. *)
Theorem C2_train_failure `{External} (self : CountVectorsFeaturizer)
    (intent_examples : list Message) (spacy_nlp : option (string → list SpacyToken))
    (lem_ints : list string) :
  let self0 := CountVectors.train_init self spacy_nlp in
  let lem_exs := CountVectors._get_message_text <$> intent_examples in
  let lem_resps := CountVectors._get_message_response <$> intent_examples in
  mapM_result CountVectors._get_message_intent intent_examples = Ok lem_ints →
  match sequence self, use_shared_vocab self with
  | false, true =>
      CountVectors.fit self0 (lem_exs ++ lem_ints ++ lem_resps) = Raise ValueError
  | false, false =>
      CountVectors.fit self0 lem_exs = Raise ValueError ∨
      CountVectors.fit self0 lem_ints = Raise ValueError ∨
      CountVectors.fit self0 lem_resps = Raise ValueError
  | true, true =>
      CountVectors.fit self0 (lem_exs ++ lem_ints) = Raise ValueError
  | true, false =>
      CountVectors.fit self0 lem_exs = Raise ValueError ∨
      CountVectors.fit self0 (lem_ints ++ lem_resps) = Raise ValueError
  end →
  ∃ self',
    CountVectors.train self intent_examples spacy_nlp = Ok (self', intent_examples) ∧
    vect self' = VNone ∧
    ∀ s message test_data,
      vect s = VNone →
      ∃ s', CountVectors.process s message test_data = Ok (s', message, None) ∧
            vect s' = VNone ∧ ∃ msg, log s' = log s ++ [LogError msg].
Proof.
  intros self0 lem_exs lem_resps Hints Hfail.
  set (self3 := CountVectors._check_OOV_present
                  (CountVectors._check_OOV_present
                     (CountVectors._check_OOV_present self0 lem_exs) lem_ints) lem_resps).
  assert (same_settings self0 self3) as Hsame.
  { eapply same_settings_trans; [|apply check_OOV_present_settings].
    eapply same_settings_trans; apply check_OOV_present_settings. }
  assert (CountVectors.fit_channels self3 lem_exs lem_ints lem_resps = Raise ValueError)
    as Hraise.
  { apply fit_channels_raises.
    - destruct Hsame as (_ & _ & _ & _ & _ & _ & ->). apply train_init_unfitted.
    - pose proof (same_settings_tokenizer _ _ Hsame) as Htok.
      destruct Hsame as (-> & -> & _).
      assert (sequence self0 = sequence self ∧
              use_shared_vocab self0 = use_shared_vocab self) as [-> ->].
      { unfold self0, CountVectors.train_init. by destruct spacy_nlp. }
      rewrite !(fit_ext self3 self0) by done. exact Hfail. }
  exists (set_vect self3 VNone). split_and!.
  - unfold CountVectors.train. fold self0. fold lem_exs. rewrite Hints.
    cbn [mbind result_bind]. fold lem_resps. fold self3. by rewrite Hraise.
  - done.
  - intros s message test_data Hs. by apply process_untrained.
Qed.

Lemma C2_train_failure_witness :
  let self := sample_featurizer false false false None [] in
  ∃ self',
    CountVectors.train (H := CountVectors.default_external true 3)
      self sample_training_data None = Ok (self', sample_training_data) ∧
    vect self' = VNone ∧
    ∃ s', CountVectors.process (H := CountVectors.default_external true 3)
            self' (bare_message "hello world") None
          = Ok (s', bare_message "hello world", None) ∧
          vect s' = VNone.
Proof.
  intros self.
  destruct (C2_train_failure (H := CountVectors.default_external true 3)
              self sample_training_data None ["greet"; "leave"] eq_refl)
    as (self' & Htrain & Hvect & Hprocess).
  { left. by vm_compute. }
  exists self'. split_and!; [done..|].
  destruct (Hprocess self' (bare_message "hello world") None Hvect)
    as (s' & Hs' & Hvect' & _).
  by exists s'.
Defined.

Section train_success.
Context `{External}.
Import CountVectors.

Lemma mapM_result_lookup {A B} (f : A → result B) l l' :
  mapM_result f l = Ok l' →
  length l' = length l ∧
  ∀ i x, l !! i = Some x → ∃ y, l' !! i = Some y ∧ f x = Ok y.
Proof.
  revert l'. induction l as [|a l IH]; intros l'; simpl.
  - intros [= <-]. split; [done|]. intros i x Hi. by rewrite lookup_nil in Hi.
  - destruct (f a) as [b|e] eqn:Hfa; [|done]. simpl.
    destruct (mapM_result f l) as [bs|e]; [|done]. simpl. intros [= <-].
    destruct (IH bs eq_refl) as [Hlen Hlook]. split; [simpl; by rewrite Hlen|].
    intros [|i] x Hi; simpl in Hi.
    + injection Hi as <-. by exists b.
    + by apply Hlook.
Qed.

Lemma lookup_enumerate {A} (l : list A) i x :
  l !! i = Some x → enumerate l !! i = Some (i, x).
Proof. intros Hi. unfold enumerate. by rewrite list_lookup_imap, Hi. Qed.

(** The state returned by a successful [try] block has fitted
    vectorizers. *)
Lemma fit_channels_vect self lem_exs lem_ints lem_resps self' X Y_ints Y_resps :
  fit_channels self lem_exs lem_ints lem_resps = Ok (self', X, Y_ints, Y_resps) →
  same_settings_but_vect self self' ∧ vect self' ≠ VNone.
Proof.
  unfold fit_channels, same_settings_but_vect. intros Hfc.
  repeat (case_match; simplify_eq/=; try done).
  all: repeat
         match goal with
         | H : (?m ≫= _) = Ok _ |- _ =>
             let E := fresh in destruct m eqn:E; simplify_eq/=
         | H : context [match ?m with Ok _ => _ | Raise _ => _ end] |- _ =>
             let E := fresh in destruct m eqn:E; simplify_eq/=
         end; done.
Qed.
End train_success.

Section merge_policy.
Context `{External}.
Import CountVectors.

Lemma train_success self intent_examples spacy_nlp self' examples' :
  train self intent_examples spacy_nlp = Ok (self', examples') →
  vect self' ≠ VNone →
  ∃ self3 lem_ints X Y_ints Y_resps,
    same_settings (train_init self spacy_nlp) self3 ∧
    mapM_result _get_message_intent intent_examples = Ok lem_ints ∧
    fit_channels self3 (_get_message_text <$> intent_examples) lem_ints
      (_get_message_response <$> intent_examples) = Ok (self', X, Y_ints, Y_resps) ∧
    mapM_result (set_example_features self' X Y_ints Y_resps)
      (enumerate intent_examples) = Ok examples'.
Proof.
  unfold train. intros Htrain Hvect.
  destruct (mapM_result _get_message_intent intent_examples) as [lem_ints|e];
    [|done].
  cbn [mbind result_bind] in Htrain.
  set (self3 := _check_OOV_present
                  (_check_OOV_present
                     (_check_OOV_present (train_init self spacy_nlp)
                        (_get_message_text <$> intent_examples)) lem_ints)
                  (_get_message_response <$> intent_examples)) in *.
  assert (same_settings (train_init self spacy_nlp) self3) as Hsame.
  { eapply same_settings_trans; [|apply check_OOV_present_settings].
    eapply same_settings_trans; apply check_OOV_present_settings. }
  destruct (fit_channels self3 _ lem_ints _) as [[[[s X] Y_ints] Y_resps]|e] eqn:Hfc.
  - destruct (mapM_result _ (enumerate intent_examples)) as [examples|e] eqn:Hset;
      [|done].
    cbn [mbind result_bind] in Htrain. injection Htrain as <- <-.
    by exists self3, lem_ints, X, Y_ints, Y_resps.
  - destruct e; try done. injection Htrain as <- <-. done.
Qed.

Lemma set_example_features_Ok self X Y_ints Y_resps i example example' :
  set_example_features self X Y_ints Y_resps (i, example) = Ok example' →
  ∃ x f y_int y_resp,
    X !! i = Some x ∧ Y_ints !! i = Some y_int ∧ Y_resps !! i = Some y_resp ∧
    (if negb (sequence self) && negb (sparse self)
     then _combine_with_existing_text_features example x else Ok x) = Ok f ∧
    example' =
      set_response_features (set_intent_features (set_text_features example f) y_int)
        y_resp.
Proof.
  unfold set_example_features, getidx.
  destruct (X !! i) as [x|]; [|done]. cbn [mbind result_bind].
  destruct (if negb (sequence self) && negb (sparse self)
            then _combine_with_existing_text_features example x else Ok x)
    as [f|] eqn:Hf; [|done].
  cbn [mbind result_bind].
  destruct (Y_ints !! i) as [y_int|]; [|done].
  destruct (Y_resps !! i) as [y_resp|]; [|done].
  cbn [mbind result_bind]. intros [= <-].
  by exists x, f, y_int, y_resp.
Qed.

Lemma featurize_test_data_settings self test_data self' test_data' :
  featurize_test_data self test_data = Ok (self', test_data') →
  same_settings self self'.
Proof.
  unfold featurize_test_data. intros Hf.
  destruct (mapM_result _get_message_intent test_data) as [lem_ints|]; [|done].
  cbn [mbind result_bind] in Hf.
  set (s1 := _check_OOV_present _ _) in *.
  assert (same_settings self s1) as Hs1.
  { eapply same_settings_trans; [|apply check_OOV_present_settings].
    by repeat split. }
  destruct (select_vect s1 1); [|done]. cbn [mbind result_bind] in Hf.
  match type of Hf with
  | (?m ≫= _) = _ => destruct m as [[Y_ints Y_resps]|]; [|done]
  end.
  cbn [mbind result_bind] in Hf.
  destruct (mapM_result _ (enumerate test_data)); [|done].
  cbn [mbind result_bind] in Hf. injection Hf as <- <-.
  eapply same_settings_trans; [exact Hs1|]. by repeat split.
Qed.
End merge_policy.

(** ** Training and prediction: how the calls end *)

Section train_process_facts.
Context `{External}.
Import CountVectors.


Lemma create_sequence_length s vocabulary_ texts X :
  _create_sequence s vocabulary_ texts = Ok X → length X = length texts.
Proof.
  unfold _create_sequence. destruct (sparse s).
  - intros [= <-]. by rewrite !length_fmap.
  - destruct texts as [|text texts]; [done|].
    rewrite (fmap_cons _ text texts), (fmap_cons length), py_max_cons.
    cbn [mbind result_bind].
    destruct (foldlM_update_each
                (fun Xi tokens => assign_rows Xi (transform s vocabulary_ tokens))
                (_get_text_sequence text :: (_get_text_sequence <$> texts))
                (replicate (length (_get_text_sequence text :: (_get_text_sequence <$> texts)))
                   (replicate (max_list (length (_get_text_sequence text)
                                         :: (length <$> (_get_text_sequence <$> texts))))
                      (replicate (length vocabulary_) (-1)%Z))))
      as (X' & HX & Hlen & _).
    { by rewrite length_replicate. }
    rewrite HX. intros [= <-]. rewrite Hlen, length_replicate.
    simpl. by rewrite length_fmap.
Qed.


Lemma fit_channels_shape self lem_exs lem_ints lem_resps self' X Y_ints Y_resps :
  vect_vocabulary_ (vect self) = None →
  fit_channels self lem_exs lem_ints lem_resps = Ok (self', X, Y_ints, Y_resps) →
  length X = length lem_exs ∧ length Y_ints = length lem_ints ∧
  length Y_resps = length lem_resps ∧
  ∃ vocabulary_0 vocabulary_1,
    select_vect self' 0 = Ok vocabulary_0 ∧ select_vect self' 1 = Ok vocabulary_1 ∧
    (sequence self = false →
     X = (if sparse self then SparseRow else Dense)
           <$> transform self' vocabulary_0 lem_exs).
Proof.
  intros Hv. unfold fit_channels, select_vect.
  destruct (sequence self) eqn:Hseq, (use_shared_vocab self) eqn:Hshared; cbn [negb].
  all: repeat
         match goal with
         | |- context [fit ?s ?c] =>
             let E := fresh in
             destruct (fit s c) eqn:E; cbn [mbind result_bind]; [|done]
         | |- context [_create_sequence ?s ?v ?c] =>
             let E := fresh in
             destruct (_create_sequence s v c) eqn:E;
             [apply create_sequence_length in E|]; cbn [mbind result_bind]; [|done]
         end.
  all: intros [= <- <- <- <-]; simpl; rewrite ?Hshared.
  all: rewrite ?length_fmap; unfold transform; rewrite ?length_fmap.
  all: split_and!; try done.
  all: eexists _, _; split_and!; try done.
  all: intros _; f_equal; apply transform_ext, tokenizer_ext; done.
Qed.


Lemma train_init_settings self spacy_nlp :
  sequence (train_init self spacy_nlp) = sequence self ∧
  use_shared_vocab (train_init self spacy_nlp) = use_shared_vocab self ∧
  sparse (train_init self spacy_nlp) = sparse self.
Proof. unfold train_init. by destruct spacy_nlp. Qed.



Lemma length_enumerate {A} (l : list A) : length (enumerate l) = length l.
Proof. unfold enumerate. by rewrite length_imap. Qed.



Lemma set_example_features_frame self X Y_ints Y_resps it example' :
  set_example_features self X Y_ints Y_resps it = Ok example' →
  same_but_features it.2 example' ∧ is_Some (text_features example') ∧
  is_Some (intent_features example') ∧ is_Some (response_features example').
Proof.
  destruct it as [i example]. intros Hset.
  apply set_example_features_Ok in Hset as (x & f & yi & yr & _ & _ & _ & _ & ->).
  by repeat split.
Qed.



Lemma train_featurizes_all_or_nothing self intent_examples spacy_nlp self' examples' :
  train self intent_examples spacy_nlp = Ok (self', examples') →
  Forall2 same_but_features intent_examples examples' ∧
  (vect self' = VNone → examples' = intent_examples) ∧
  (vect self' ≠ VNone →
   Forall (fun m => is_Some (text_features m) ∧ is_Some (intent_features m) ∧
                    is_Some (response_features m)) examples').
Proof.
  intros Htrain.
  assert (vect self' ≠ VNone →
          Forall2 same_but_features intent_examples examples' ∧
          Forall (fun m => is_Some (text_features m) ∧ is_Some (intent_features m) ∧
                           is_Some (response_features m)) examples') as Hfitted.
  { intros Hvect.
    destruct (train_success _ _ _ _ _ Htrain Hvect)
      as (self3 & lem_ints & X & Y_ints & Y_resps & _ & _ & _ & Hset).
    destruct (mapM_result_lookup _ _ _ Hset) as [Hlen Hlook].
    rewrite length_enumerate in Hlen. split.
    - apply Forall2_same_length_lookup_2; [done|]. intros i m m' Hm Hm'.
      destruct (Hlook i (i, m) (lookup_enumerate _ _ _ Hm)) as (y & Hy & Hfy).
      assert (y = m') as -> by congruence.
      by apply set_example_features_frame in Hfy as [Hfr _].
    - apply Forall_lookup. intros i m' Hm'.
      destruct (lookup_lt_is_Some_2 intent_examples i) as [m Hm].
      { rewrite <- Hlen. by eapply lookup_lt_Some. }
      destruct (Hlook i (i, m) (lookup_enumerate _ _ _ Hm)) as (y & Hy & Hfy).
      assert (y = m') as -> by congruence.
      by apply set_example_features_frame in Hfy as (_ & ? & ? & ?). }
  assert (vect self' = VNone → examples' = intent_examples) as Hnone.
  { intros Hvect. revert Htrain. unfold train.
    destruct (mapM_result _get_message_intent intent_examples) as [lem_ints|e]; [|done].
    cbn [mbind result_bind].
    match goal with
    | |- context [fit_channels ?s ?a ?b ?c] =>
        destruct (fit_channels s a b c) as [[[[s1 X] Y_ints] Y_resps]|e] eqn:Hfc
    end.
    - apply fit_channels_vect in Hfc as [_ Hne].
      destruct (mapM_result _ (enumerate intent_examples)); [|done].
      cbn [mbind result_bind]. intros [= <- <-]. done.
    - destruct e; try done. by intros [= <- <-]. }
  split_and!; [|done|intros Hne; by apply Hfitted].
  destruct (vect self') eqn:Hv.
  - rewrite Hnone by done. apply Forall2_same_length_lookup_2; [done|].
    intros i m m' Hm Hm'. assert (m = m') as -> by congruence. by repeat split.
  - by apply Hfitted.
  - by apply Hfitted.
Qed.

Lemma create_sequence_singleton s vocabulary_ text :
  ∃ x, _create_sequence s vocabulary_ [text] = Ok [x].
Proof.
  destruct (create_sequence_cases s vocabulary_ [text]) as [[X HX]|Hraise].
  - pose proof (create_sequence_length _ _ _ _ HX) as Hlen.
    destruct X as [|x [|??]]; try done. by exists x.
  - revert Hraise. unfold _create_sequence. destruct (sparse s); [done|].
    rewrite (fmap_cons _ text []), (fmap_cons length), py_max_cons.
    cbn [mbind result_bind]. simpl. done.
Qed.

(** [process] without test data on a component with fitted vectorizers. *)
Lemma process_after_fit self' vocabulary_0 message :
  vect self' ≠ VNone → select_vect self' 0 = Ok vocabulary_0 →
  let bag := transform_row self' vocabulary_0 (_get_message_text message) in
  if negb (sequence self') && negb (sparse self') then
    process self' message None =
      match _combine_with_existing_text_features message (squeeze_row bag) with
      | Ok f => Ok (self', set_text_features message f, None)
      | Raise e => Raise e
      end
  else
    ∃ f, process self' message None = Ok (self', set_text_features message f, None) ∧
         (sequence self' = false → f = SparseRow bag).
Proof.
  intros Hvect Hsel. unfold process.
  destruct (vect self') eqn:Hv; [done| |].
  all: cbn [mbind result_bind]; rewrite Hsel; cbn [mbind result_bind].
  all: destruct (sparse self'), (sequence self'); cbn [negb andb].
  all: try (destruct (create_sequence_singleton self' vocabulary_0
                        (_get_message_text message)) as [x ->]);
    cbn.
  all: try (eexists; split; [reflexivity|done]).
  all: by destruct (_combine_with_existing_text_features _ _).
Qed.

Lemma featurize_test_data_Ok self test_data self' test_data' :
  featurize_test_data self test_data = Ok (self', test_data') →
  is_test_data_featurized self' = true ∧
  Forall2 (fun m m' => same_but_features m m' ∧ text_features m' = text_features m ∧
                       is_Some (intent_features m') ∧ is_Some (response_features m'))
    test_data test_data'.
Proof.
  unfold featurize_test_data.
  destruct (mapM_result _get_message_intent test_data) as [lem_ints|]; [|done].
  cbn [mbind result_bind].
  destruct (select_vect _ 1); [|done]. cbn [mbind result_bind].
  match goal with
  | |- (?m ≫= _) = _ → _ => destruct m as [[Y_ints Y_resps]|]; [|done]
  end.
  cbn [mbind result_bind].
  destruct (mapM_result _ (enumerate test_data)) as [examples|] eqn:Hset; [|done].
  cbn [mbind result_bind]. intros [= <- <-]. split; [done|].
  destruct (mapM_result_lookup _ _ _ Hset) as [Hlen Hlook].
  rewrite length_enumerate in Hlen.
  apply Forall2_same_length_lookup_2; [done|]. intros i m m' Hm Hm'.
  destruct (Hlook i (i, m) (lookup_enumerate _ _ _ Hm)) as (y & Hy & Hfy).
  assert (y = m') as -> by congruence.
  revert Hfy. unfold getidx. cbn [fst snd].
  destruct (Y_ints !! i); [|done]. destruct (Y_resps !! i); [|done].
  cbn [mbind result_bind]. intros [= <-]. by repeat split.
Qed.

Lemma process_flag self message test_data self' message' r :
  process self message test_data = Ok (self', message', r) →
  vect self' = vect self ∧
  (is_test_data_featurized self = true →
   r = None ∧ is_test_data_featurized self' = true) ∧
  (vect self ≠ VNone → is_test_data_featurized self = false →
   match test_data with
   | Some test_data =>
       is_test_data_featurized self' = true ∧
       ∃ test_data',
         r = Some test_data' ∧
         Forall2 (fun m m' => same_but_features m m' ∧
                              text_features m' = text_features m ∧
                              is_Some (intent_features m') ∧
                              is_Some (response_features m'))
           test_data test_data'
   | None => r = None ∧ is_test_data_featurized self' = false
   end).
Proof.
  unfold process. destruct (vect self) eqn:Hv.
  { intros [= <- <- <-]. by split_and!. }
  all: destruct test_data as [test_data|];
    [destruct (is_test_data_featurized self) eqn:Hflag;
     [|destruct (featurize_test_data self test_data) as [[s1 td1]|] eqn:Hf; [|done]]|].
  all: cbn [mbind result_bind].
  all: match goal with
       | |- (select_vect ?s 0 ≫= _) = _ → _ =>
           destruct (select_vect s 0); [|done]
       end; cbn [mbind result_bind].
  all: match goal with
       | |- (?m ≫= _) = _ → _ => destruct m; [|done]
       end; cbn [mbind result_bind]; intros [= <- <- <-].
  all: try (pose proof (featurize_test_data_settings _ _ _ _ Hf)
              as (_ & _ & _ & _ & _ & _ & Hvect);
            apply featurize_test_data_Ok in Hf as [Hflag' Hall]).
  all: split_and!; try done; try congruence.
  all: intros _ _; split; [done|]; by eexists.
Qed.


End train_process_facts.

(** ** The merge policy *)

Section hstack_facts.
Import CountVectors.




End hstack_facts.



(** ** Separate vocabularies *)

Section separate_vocabularies.
Context `{External}.
Import CountVectors.

Lemma transform_ext s s' vocabulary_ docs :
  _tokenizer s = _tokenizer s' → transform s vocabulary_ docs = transform s' vocabulary_ docs.
Proof. intros Heq. unfold transform, transform_row. by rewrite Heq. Qed.

Lemma transform_set_vect_separate s v0 v1 vocabulary_ docs :
  vect_vocabulary_ (vect s) = None →
  transform (set_vect s (VSeparate v0 v1)) vocabulary_ docs = transform s vocabulary_ docs.
Proof. intros Hv. by apply transform_ext, tokenizer_ext. Qed.

(** In separate-vocabulary, non-sequence mode the [try] block fits
    vectorizer 1 on the intent channel, transforms that channel, and then fits
    vectorizer 1 again on the response channel: the response features are
    counts over the response vocabulary, which is the one kept. *)
Lemma fit_channels_separate_bag_of_words self lem_exs lem_ints lem_resps
    self' X Y_ints Y_resps :
  sequence self = false → use_shared_vocab self = false →
  vect_vocabulary_ (vect self) = None →
  fit_channels self lem_exs lem_ints lem_resps = Ok (self', X, Y_ints, Y_resps) →
  ∃ v_text v_int v_resp,
    fit self lem_exs = Ok v_text ∧ fit self lem_ints = Ok v_int ∧
    fit self lem_resps = Ok v_resp ∧
    vect self' = VSeparate (Some v_text) (Some v_resp) ∧
    let to_features := if sparse self then SparseRow else Dense in
    X = to_features <$> transform self v_text lem_exs ∧
    Y_ints = to_features <$> transform self v_int lem_ints ∧
    Y_resps = to_features <$> transform self v_resp lem_resps.
Proof.
  intros Hseq Hshared Hv. unfold fit_channels. rewrite Hseq, Hshared. cbn [negb].
  destruct (fit self lem_exs) as [v_text|] eqn:Htext; [|done].
  cbn [mbind result_bind]. rewrite fit_set_vect_separate by done.
  destruct (fit self lem_ints) as [v_int|] eqn:Hint; [|done].
  cbn [mbind result_bind].
  rewrite (fit_set_vect_separate (set_vect self _)) by done.
  rewrite fit_set_vect_separate by done.
  destruct (fit self lem_resps) as [v_resp|] eqn:Hresp; [|done].
  cbn [mbind result_bind]. intros [= <- <- <- <-].
  exists v_text, v_int, v_resp. split_and!; [done..| | |].
  - by rewrite transform_set_vect_separate.
  - by rewrite (transform_set_vect_separate (set_vect self _)),
      transform_set_vect_separate.
  - by rewrite (transform_set_vect_separate (set_vect (set_vect self _) _)),
      (transform_set_vect_separate (set_vect self _)), transform_set_vect_separate.
Qed.

(** The same for [train]: after a successful call the second vectorizer
    holds the vocabulary fitted on the response channel. *)
Lemma train_separate_bag_of_words self intent_examples spacy_nlp self' examples' :
  sequence self = false → use_shared_vocab self = false →
  train self intent_examples spacy_nlp = Ok (self', examples') →
  vect self' ≠ VNone →
  ∃ lem_ints v_text v_int v_resp,
    mapM_result _get_message_intent intent_examples = Ok lem_ints ∧
    fit (train_init self spacy_nlp) (_get_message_text <$> intent_examples) = Ok v_text ∧
    fit (train_init self spacy_nlp) lem_ints = Ok v_int ∧
    fit (train_init self spacy_nlp) (_get_message_response <$> intent_examples)
    = Ok v_resp ∧
    vect self' = VSeparate (Some v_text) (Some v_resp).
Proof.
  intros Hseq Hshared Htrain Hvect.
  destruct (train_success _ _ _ _ _ Htrain Hvect)
    as (self3 & lem_ints & X & Y_ints & Y_resps & Hsame & Hints & Hfc & _).
  pose proof (same_settings_tokenizer _ _ Hsame) as Htok.
  assert (sequence (train_init self spacy_nlp) = sequence self ∧
          use_shared_vocab (train_init self spacy_nlp) = use_shared_vocab self)
    as [Hseq0 Hshared0].
  { unfold train_init. by destruct spacy_nlp. }
  destruct Hsame as (Hseq3 & Hshared3 & _ & _ & _ & _ & Hvect3).
  apply fit_channels_separate_bag_of_words in Hfc
      as (v_text & v_int & v_resp & Htext & Hint & Hresp & Hv & _).
  - exists lem_ints, v_text, v_int, v_resp.
    rewrite (fit_ext self3 (train_init self spacy_nlp)) in Htext, Hint, Hresp by done.
    by split_and!.
  - congruence.
  - congruence.
  - rewrite Hvect3. apply train_init_unfitted.
Qed.
End separate_vocabularies.

(** C1. In separate-vocabulary, non-sequence mode [train] calls
    [fit_transform] on vectorizer 1 twice, first with the intent channel
    and then with the response channel, so the second call replaces the
    vocabulary of the first. On the sample data the intent features are counts
    over the intent vocabulary, but the response features are counts over the
    vocabulary of the responses, which is also the one vectorizer 1 keeps;
    counted over the intent vocabulary the responses would be all zero. *)
Theorem C1_train_refits_vectorizer_1_on_responses :
  let self := sample_featurizer false false false None [] in
  let self' := (train_outcome self sample_training_data).1 in
  let examples' := (train_outcome self sample_training_data).2 in
  CountVectors.train (H := CountVectors.default_external true 1)
    self sample_training_data None = Ok (self', examples') ∧
  CountVectors._get_message_intent <$> sample_training_data = [Ok "greet"; Ok "leave"] ∧
  CountVectors._get_message_response <$> sample_training_data = ["hi there"; "see you"] ∧
  CountVectors.fit (H := CountVectors.default_external true 1)
    (CountVectors.train_init self None) ["greet"; "leave"] = Ok ["greet"; "leave"] ∧
  CountVectors.fit (H := CountVectors.default_external true 1)
    (CountVectors.train_init self None) ["hi there"; "see you"]
  = Ok ["hi"; "see"; "there"; "you"] ∧
  vect self' = VSeparate (Some ["__NUMBER__"; "bye"; "hello"; "now"; "oov"; "world"])
                 (Some ["hi"; "see"; "there"; "you"]) ∧
  intent_features <$> examples' = [Some (Dense [1; 0]%Z); Some (Dense [0; 1]%Z)] ∧
  response_features <$> examples'
  = [Some (Dense [1; 0; 1; 0]%Z); Some (Dense [0; 1; 0; 1]%Z)] ∧
  CountVectors.transform (H := CountVectors.default_external true 1)
    self' ["greet"; "leave"] ["hi there"; "see you"] = [[0; 0]; [0; 0]]%Z.
Proof. split_and!; by vm_compute. Qed.

(** * Further properties *)

(** ** Tags and their prefixes *)

(** X1. Prefixing a label with one of [B-], [I-], [U-], [L-] is undone by
    the two accessors: [entity_name_from_tag] returns the label and
    [bilou_prefix_from_tag] the letter of the prefix. *)
Theorem X1_prefixed_tag_accessors (prefix label : string) :
  prefix ∈ Bilou.BILOU_PREFIXES →
  Bilou.entity_name_from_tag (prefix +:+ label) = label ∧
  bilou_prefix_from_tag (prefix +:+ label) = Some (str_take 1 prefix).
Proof.
  unfold Bilou.BILOU_PREFIXES. rewrite !elem_of_cons, elem_of_nil.
  intros [->|[->|[->|[->|[]]]]]; split; reflexivity.
Qed.

Lemma X1_prefixed_tag_accessors_witness :
  Bilou.entity_name_from_tag "L-city" = "city" ∧
  bilou_prefix_from_tag "L-city" = Some "L".
Proof.
  apply (X1_prefixed_tag_accessors "L-" "city"). compute_done.
Defined.

(** X2. Every tag splits along the two accessors: when
    [bilou_prefix_from_tag] finds a prefix it is one of [B], [I], [U], [L] and
    the tag is that letter, a dash and the entity name; when it finds none
    (as for ["O"] and ["-"]), [entity_name_from_tag] returns the tag
    itself. *)
Theorem X2_tag_decomposition (tag : string) :
  match bilou_prefix_from_tag tag with
  | Some p => p ∈ ["B"; "I"; "U"; "L"] ∧
              tag = p +:+ "-" +:+ Bilou.entity_name_from_tag tag
  | None => Bilou.entity_name_from_tag tag = tag
  end.
Proof.
  unfold bilou_prefix_from_tag, Bilou.entity_name_from_tag.
  destruct (decide (str_take 2 tag ∈ Bilou.BILOU_PREFIXES)) as [Hin|Hnin].
  - rewrite (bool_decide_eq_true_2 _ Hin).
    unfold Bilou.BILOU_PREFIXES in Hin.
    rewrite !elem_of_cons, elem_of_nil in Hin.
    destruct tag as [|c1 [|c2 rest]]; cbn [str_take] in Hin;
      [by destruct Hin as [?|[?|[?|[?|[]]]]]..|].
    destruct Hin as [[= -> ->]|[[= -> ->]|[[= -> ->]|[[= -> ->]|[]]]]];
      (split; [compute_done|reflexivity]).
  - rewrite (bool_decide_eq_false_2 _ Hnin), andb_false_r. done.
Qed.

(** ** Tags of several entities *)

Section entity_phase.
Import Bilou.

Lemma setitem_Forall {A} (Q : A → Prop) (l l' : list A) i x :
  setitem l i x = Ok l' → Q x → Forall Q l → Forall Q l'.
Proof.
  unfold setitem. case_decide; [|done]. intros [= <-] Hx Hl.
  by apply Forall_insert.
Qed.

Lemma foldlM_setitem_Forall {A} (Q : A → Prop) (x : A) idxs (l l' : list A) :
  foldlM (fun b i => setitem b i x) l idxs = Ok l' → Q x → Forall Q l → Forall Q l'.
Proof.
  revert l. induction idxs as [|i idxs IH]; intros l; simpl.
  - by intros [= <-].
  - destruct (setitem l i x) as [l1|] eqn:Hset; [|done]. simpl.
    intros Hrest Hx Hl. apply (IH l1); [done..|].
    by eapply setitem_Forall.
Qed.

(** The entity phase only writes tags of the entities it is given. *)
Lemma handle_entities_Forall all_entities entities emap smap bilou bilou' :
  (∀ entity, entity ∈ entities → entity ∈ all_entities) →
  _handle_entities bilou entities emap smap = Ok bilou' →
  Forall (fun tag => tag = "-" ∨ entity_tag all_entities tag) bilou →
  Forall (fun tag => tag = "-" ∨ entity_tag all_entities tag) bilou'.
Proof.
  unfold _handle_entities. revert bilou.
  induction entities as [|[[s e] label] entities IH]; intros bilou Hsub;
    cbn [foldlM].
  - by intros [= <-].
  - destruct (_handle_entity emap smap bilou (s, e, label)) as [b1|] eqn:Hone;
      cbn [mbind result_bind]; [|done].
    intros Hrest Hall.
    apply (IH b1); [intros ? ?; apply Hsub; by right|done|].
    assert (∀ prefix, prefix ∈ BILOU_PREFIXES →
              (fun tag => tag = "-" ∨ entity_tag all_entities tag) (prefix +:+ label))
      as Htag.
    { intros prefix Hp. right. exists prefix, s, e, label.
      split_and!; [done| |done]. apply Hsub. left. }
    unfold _handle_entity in Hone.
    destruct (smap !! s) as [si|]; [|by injection Hone as <-].
    destruct (emap !! e) as [ei|]; [|by injection Hone as <-].
    case_decide.
    + eapply setitem_Forall; [exact Hone| |done]. apply Htag. compute_done.
    + destruct (setitem bilou si ("B-" +:+ label)) as [b2|] eqn:HB; [|done].
      simpl in Hone.
      destruct (foldlM _ b2 _) as [b3|] eqn:HI; [|done]. simpl in Hone.
      eapply setitem_Forall; [exact Hone|apply Htag; compute_done|].
      eapply foldlM_setitem_Forall; [exact HI|apply Htag; compute_done|].
      eapply setitem_Forall; [exact HB|apply Htag; compute_done|done].
Qed.

Lemma entity_tag_not_O entities tag : entity_tag entities tag → tag ≠ "O".
Proof.
  intros (prefix & s & e & label & Hp & _ & ->). by apply prefixed_not_O.
Qed.

Lemma token_hits_overlaps entities token :
  token_hits (_get_entity_positions entities) token = true ↔
  ∃ s e label, (s, e, label) ∈ entities ∧ overlaps token s e.
Proof.
  rewrite token_hits_true. unfold overlaps. split.
  - intros (c & Hc & (s & e & label & Hin & Hse)%elem_of_entity_positions).
    exists s, e, label. split; [done|]. by exists c.
  - intros (s & e & label & Hin & c & Hc & Hse). exists c. split; [done|].
    apply elem_of_entity_positions. by exists s, e, label.
Qed.
End entity_phase.

(** X3. Whatever the tokens and the entity spans, every tag of the result of
    [bilou_tags_from_offsets] is ["O"], the sentinel ["-"], or a BILOU prefix
    followed by the label of one of the given entities. *)
Theorem X3_bilou_tags_only_name_given_entities (T : list Token) (E : list Entity) :
  ∃ tags,
    Bilou.bilou_tags_from_offsets T E = Ok tags ∧
    Forall (fun tag => tag = "O" ∨ tag = "-" ∨ entity_tag E tag) tags.
Proof.
  destruct (bilou_tags_from_offsets_spec T E)
    as (bilou & tags & Hb & Hblen & Ht & Hlen & Hlook).
  exists tags. split; [done|].
  assert (Forall (fun tag => tag = "-" ∨ entity_tag E tag) bilou) as Hbilou.
  { eapply handle_entities_Forall; [|exact Hb|]; [done|].
    apply Forall_fmap, Forall_forall. intros t _. by left. }
  apply Forall_lookup. intros k tag Hk.
  destruct (lookup_lt_is_Some_2 T k) as [t Htk].
  { rewrite <- Hlen. by eapply lookup_lt_Some. }
  rewrite (Hlook k t Htk) in Hk.
  destruct (Bilou.token_hits _ t); [|injection Hk as <-; by left].
  right. by apply (proj1 (Forall_lookup _ _) Hbilou k).
Qed.

(** X4. Whatever the tokens and the entity spans, a token is tagged ["O"]
    exactly when its character range meets none of the spans, aligned with
    token boundaries or not. *)
Theorem X4_outside_iff_no_span_meets (T : list Token) (E : list Entity) :
  ∃ tags,
    Bilou.bilou_tags_from_offsets T E = Ok tags ∧
    ∀ k t, T !! k = Some t →
           (tags !! k = Some "O" ↔ ¬ ∃ s e label, (s, e, label) ∈ E ∧ overlaps t s e).
Proof.
  destruct (bilou_tags_from_offsets_spec T E)
    as (bilou & tags & Hb & Hblen & Ht & Hlen & Hlook).
  exists tags. split; [done|]. intros k t Hk.
  assert (Forall (fun tag => tag = "-" ∨ entity_tag E tag) bilou) as Hbilou.
  { eapply handle_entities_Forall; [|exact Hb|]; [done|].
    apply Forall_fmap, Forall_forall. intros t' _. by left. }
  rewrite (Hlook k t Hk), <- token_hits_overlaps.
  destruct (Bilou.token_hits _ t); [|by split].
  split; [|done]. intros HO. exfalso.
  destruct (proj1 (Forall_lookup _ _) Hbilou k "O" HO) as [?|Htag]; [done|].
  by apply entity_tag_not_O in Htag.
Qed.

(** ** The tag-id dictionary as a numbering *)

(** X5. The ids of [build_tag_id_dict] number its keys without gaps or
    repetitions: with [n] distinct labels, every id lies between [0] and [4n],
    every number in that range is the id of some key, and two keys never share
    an id. *)
Theorem X5_tag_ids_number_the_keys (training_examples : list Message) :
  let tag_id_dict := Bilou.build_tag_id_dict training_examples in
  let n := Z.of_nat (size (Bilou.distinct_tags training_examples)) in
  (∀ key id, tag_id_dict !! key = Some id → (0 ≤ id ≤ 4 * n)%Z) ∧
  (∀ id, (0 ≤ id ≤ 4 * n)%Z → ∃ key, tag_id_dict !! key = Some id) ∧
  (∀ key1 key2 id,
     tag_id_dict !! key1 = Some id → tag_id_dict !! key2 = Some id → key1 = key2).
Proof.
  intros tag_id_dict n.
  pose proof (NoDup_elements (Bilou.distinct_tags training_examples)) as Hnd.
  set (labels := Bilou.sorted (elements (Bilou.distinct_tags training_examples))).
  assert (Z.of_nat (length labels) = n) as Hn.
  { unfold labels, Bilou.sorted, n. by rewrite merge_sort_Permutation. }
  assert (NoDup labels) as Hndl.
  { unfold labels, Bilou.sorted. by rewrite merge_sort_Permutation. }
  assert (∀ p prefix, Bilou.BILOU_PREFIXES !! p = Some prefix → p < 4) as Hp4.
  { intros p prefix Hp. by apply lookup_lt_Some in Hp. }
  split_and!.
  - intros key id Hlook.
    apply (proj1 (tag_id_dict_of_lookup _ _ _ Hnd)) in Hlook
        as [[_ ->]|(k & label & p & prefix & Hk & Hp & _ & ->)]; [lia|].
    apply lookup_lt_Some in Hk. apply Hp4 in Hp. fold labels in Hk. lia.
  - intros id Hid. destruct (decide (id = 0%Z)) as [->|Hne].
    + exists "O". apply tag_id_dict_of_lookup; [done|]. by left.
    + destruct (lookup_lt_is_Some_2 labels (Z.to_nat ((id - 1) / 4)))
        as [label Hk].
      { apply Nat2Z.inj_lt. rewrite Z2Nat.id by (apply Z.div_pos; lia).
        apply Z.div_lt_upper_bound; lia. }
      destruct (lookup_lt_is_Some_2 Bilou.BILOU_PREFIXES (Z.to_nat ((id - 1) mod 4)))
        as [prefix Hp].
      { change (length Bilou.BILOU_PREFIXES) with 4.
        pose proof (Z.mod_pos_bound (id - 1) 4). lia. }
      exists (prefix +:+ label). apply tag_id_dict_of_lookup; [done|]. right.
      exists (Z.to_nat ((id - 1) / 4)), label, (Z.to_nat ((id - 1) mod 4)), prefix.
      split_and!; [exact Hk|exact Hp|done|].
      rewrite !Z2Nat.id.
      * pose proof (Z.div_mod (id - 1) 4). lia.
      * pose proof (Z.mod_pos_bound (id - 1) 4). lia.
      * apply Z.div_pos; lia.
  - intros key1 key2 id H1 H2.
    apply (proj1 (tag_id_dict_of_lookup _ _ _ Hnd)) in H1
        as [[-> ->]|(k1 & l1 & p1 & x1 & Hk1 & Hp1 & -> & ->)].
    + apply (proj1 (tag_id_dict_of_lookup _ _ _ Hnd)) in H2
        as [[-> _]|(k2 & l2 & p2 & x2 & _ & _ & _ & Hid)]; [done|lia].
    + apply (proj1 (tag_id_dict_of_lookup _ _ _ Hnd)) in H2
        as [[-> Hid]|(k2 & l2 & p2 & x2 & Hk2 & Hp2 & -> & Hid)]; [lia|].
      pose proof (Hp4 _ _ Hp1). pose proof (Hp4 _ _ Hp2).
      assert (k1 = k2) as -> by lia. assert (p1 = p2) as -> by lia.
      fold labels in Hk1, Hk2. congruence.
Qed.

(** ** Applying the schema to training examples *)

Section schema_facts.

Lemma mapM_result_total {A B} (f : A → result B) (l : list A) :
  (∀ x, x ∈ l → ∃ y, f x = Ok y) → ∃ l', mapM_result f l = Ok l'.
Proof.
  induction l as [|x l IH]; intros Hf; simpl; [by eauto|].
  destruct (Hf x) as [y ->]; [by left|]. simpl.
  destruct IH as [l' ->]; [|by eauto].
  intros z Hz. apply Hf. by right.
Qed.

Lemma convert_entity_complete entity :
  entity_complete entity → ∃ e, convert_entity entity = Ok e.
Proof.
  intros ([s Hs] & [e He] & [label Hl]). unfold convert_entity.
  rewrite Hs, He, Hl. by eauto.
Qed.

(** One example: what a successful iteration leaves behind. *)
Lemma apply_bilou_schema_to_Ok example example' :
  apply_bilou_schema_to example = Ok example' →
  ex_entities example' = ex_entities example ∧
  same_but_bilou_entities (ex_message example) (ex_message example') ∧
  (truthy (ex_entities example) = false → example' = example) ∧
  (truthy (ex_entities example) = true →
   ∃ toks tags,
     tokens (ex_message example) = Some toks ∧
     bilou_entities (ex_message example') = Some tags ∧
     length tags = length toks).
Proof.
  unfold apply_bilou_schema_to.
  destruct (truthy (ex_entities example)) eqn:Hen.
  - destruct (map_message_entities example) as [entities|]; [|done].
    cbn [mbind result_bind].
    destruct (tokens (ex_message example)) as [toks|] eqn:Htoks; [|done].
    destruct (bilou_tags_from_offsets_spec toks entities)
      as (_ & tags & _ & _ & Ht & Hlen & _).
    rewrite Ht. cbn [mbind result_bind]. intros [= <-].
    split_and!; [done|by repeat split|done|].
    intros _. by exists toks, tags.
  - intros [= <-]. split_and!; [done|by repeat split|done|done].
Qed.
End schema_facts.

(** X6. [apply_bilou_schema] succeeds when every example that carries
    entities has a token sequence and entity dictionaries with their three
    keys. It then returns as many examples; an example without entities (none,
    or an empty list) is left as it is, and an example with entities gets a
    tag sequence with one tag per token and is otherwise unchanged. *)
Theorem X6_apply_bilou_schema (training_examples : list Example) :
  (∀ example,
     example ∈ training_examples → truthy (ex_entities example) = true →
     is_Some (tokens (ex_message example)) ∧
     Forall entity_complete (default [] (ex_entities example))) →
  ∃ examples',
    apply_bilou_schema training_examples = Ok examples' ∧
    length examples' = length training_examples ∧
    ∀ i example,
      training_examples !! i = Some example →
      ∃ example',
        examples' !! i = Some example' ∧
        ex_entities example' = ex_entities example ∧
        same_but_bilou_entities (ex_message example) (ex_message example') ∧
        (truthy (ex_entities example) = false → example' = example) ∧
        (truthy (ex_entities example) = true →
         ∃ toks tags,
           tokens (ex_message example) = Some toks ∧
           bilou_entities (ex_message example') = Some tags ∧
           length tags = length toks).
Proof.
  intros Hok. unfold apply_bilou_schema.
  destruct (mapM_result_total apply_bilou_schema_to training_examples)
    as [examples' Hrun].
  { intros example Hin. unfold apply_bilou_schema_to.
    destruct (truthy (ex_entities example)) eqn:Hen; [|by eauto].
    destruct (Hok example Hin Hen) as [[toks Htoks] Hcomplete].
    destruct (mapM_result_total convert_entity (default [] (ex_entities example)))
      as [entities Hents].
    { intros entity He. apply convert_entity_complete.
      rewrite Forall_forall in Hcomplete. by apply Hcomplete. }
    unfold map_message_entities. rewrite Hents. cbn [mbind result_bind].
    rewrite Htoks.
    destruct (bilou_tags_from_offsets_spec toks entities)
      as (_ & tags & _ & _ & -> & _). cbn [mbind result_bind]. by eauto. }
  exists examples'. split; [done|].
  destruct (mapM_result_lookup _ _ _ Hrun) as [Hlen Hlook].
  split; [done|]. intros i example Hi.
  destruct (Hlook i example Hi) as (example' & Hi' & Hone).
  exists example'. split; [done|]. by apply apply_bilou_schema_to_Ok.
Qed.

Lemma X6_apply_bilou_schema_witness :
  ∃ examples',
    apply_bilou_schema [sample_annotated; sample_unannotated] = Ok examples' ∧
    length examples' = 2 ∧
    examples' !! 1 = Some sample_unannotated ∧
    ∃ example' tags,
      examples' !! 0 = Some example' ∧
      bilou_entities (ex_message example') = Some tags ∧ length tags = 5.
Proof.
  destruct (X6_apply_bilou_schema [sample_annotated; sample_unannotated])
    as (examples' & Hrun & Hlen & Hrows).
  { intros example Hin. rewrite !elem_of_cons, elem_of_nil in Hin.
    destruct Hin as [->|[->|[]]]; intros Hen; [|done].
    split; [by eexists|]. repeat constructor; by eexists. }
  exists examples'. split_and!; [done..| |].
  - destruct (Hrows 1 sample_unannotated eq_refl) as (e' & He' & _ & _ & Hsame & _).
    by rewrite He', (Hsame eq_refl).
  - destruct (Hrows 0 sample_annotated eq_refl) as (e' & He' & _ & _ & _ & Htags).
    destruct (Htags eq_refl) as (toks & tags & Htoks & Hb & Hl).
    exists e', tags. split_and!; [done..|].
    injection Htoks as <-. exact Hl.
Defined.

Section schema_ids.

Lemma mapM_result_length {A B} (f : A → result B) l l' :
  mapM_result f l = Ok l' → length l' = length l.
Proof.
  revert l'. induction l as [|a l IH]; intros l'; simpl; [by intros [= <-]|].
  destruct (f a); [|done]. simpl.
  destruct (mapM_result f l) as [bs|]; [|done]. simpl. intros [= <-].
  simpl. f_equal. by apply IH.
Qed.

(** With ["O"] in the dictionary, [tags_to_ids] returns one id per tag of a
    non-empty tag sequence, and otherwise one id per token. *)
Lemma tags_to_ids_length message (tag_id_dict : gmap string Z) o :
  tag_id_dict !! "O" = Some o →
  (truthy (bilou_entities message) = true ∨ is_Some (tokens message)) →
  ∃ ids,
    Bilou.tags_to_ids message tag_id_dict = Ok ids ∧
    length ids = if truthy (bilou_entities message)
                 then length (default [] (bilou_entities message))
                 else length (default [] (tokens message)).
Proof.
  intros HO Hhas. unfold Bilou.tags_to_ids.
  destruct (truthy (bilou_entities message)).
  - destruct (mapM_result_total
                (fun _tag => if decide (is_Some (tag_id_dict !! _tag))
                             then getitem tag_id_dict _tag
                             else getitem tag_id_dict "O")
                (default [] (bilou_entities message))) as [ids Hids].
    { intros tag _. unfold getitem. case_decide as Hin.
      - destruct Hin as [v ->]. by eauto.
      - rewrite HO. by eauto. }
    exists ids. split; [done|]. by eapply mapM_result_length.
  - destruct Hhas as [?|[toks Htoks]]; [done|]. rewrite Htoks.
    destruct (mapM_result_total (fun _ : Token => getitem tag_id_dict "O") toks)
      as [ids Hids].
    { intros t _. unfold getitem. rewrite HO. by eauto. }
    exists ids. split; [done|]. by eapply mapM_result_length.
Qed.
End schema_ids.

(** X7. After [apply_bilou_schema] has handled an example that has a token
    sequence, and either entities or no earlier tag sequence, [tags_to_ids]
    on its message returns exactly one id per token, for every dictionary
    that contains ["O"]. *)
Theorem X7_one_id_per_token_after_schema (example example' : Example)
    (toks : list Token) (tag_id_dict : gmap string Z) (o : Z) :
  apply_bilou_schema_to example = Ok example' →
  tokens (ex_message example) = Some toks →
  truthy (ex_entities example) = true ∨ bilou_entities (ex_message example) = None →
  tag_id_dict !! "O" = Some o →
  ∃ ids,
    Bilou.tags_to_ids (ex_message example') tag_id_dict = Ok ids ∧
    length ids = length toks.
Proof.
  intros Hrun Htoks Hcase HO.
  destruct (apply_bilou_schema_to_Ok _ _ Hrun) as (_ & Hsame & Hnone & Hsome).
  assert (tokens (ex_message example') = Some toks) as Htoks'.
  { destruct Hsame as (_ & _ & -> & _). done. }
  destruct (tags_to_ids_length (ex_message example') tag_id_dict o HO)
    as (ids & Hids & Hlen).
  { right. by rewrite Htoks'. }
  exists ids. split; [done|]. rewrite Hlen, Htoks'.
  destruct (truthy (ex_entities example)) eqn:Hen.
  - destruct (Hsome eq_refl) as (toks0 & tags & Htoks0 & Hb & Hl).
    rewrite Hb. simpl. destruct tags as [|tag tags]; simpl.
    + rewrite Htoks in Htoks0. injection Htoks0 as <-. by destruct toks.
    + rewrite Htoks in Htoks0. injection Htoks0 as <-. exact Hl.
  - destruct Hcase as [?|Hb]; [done|].
    rewrite (Hnone eq_refl), Hb. done.
Qed.

Lemma X7_one_id_per_token_after_schema_witness :
  ∃ example' ids,
    apply_bilou_schema_to sample_annotated = Ok example' ∧
    Bilou.tags_to_ids (ex_message example') {["O" := 0%Z]} = Ok ids ∧
    length ids = 5.
Proof.
  destruct (apply_bilou_schema_to sample_annotated) as [example'|] eqn:Hrun;
    [|by vm_compute in Hrun].
  destruct (X7_one_id_per_token_after_schema sample_annotated example' sample_tokens
              {["O" := 0%Z]} 0%Z Hrun eq_refl (or_introl eq_refl) ltac:(by vm_compute))
    as (ids & Hids & Hlen).
  by exists example', ids.
Defined.

(** ** Text primitives *)

Section text_facts.

Lemma str_app_cons c s t : String c s +:+ t = String c (s +:+ t).
Proof. done. Qed.

Lemma str_app_nil_r s : s +:+ "" = s.
Proof. induction s as [|c s IH]; [done|]. by rewrite str_app_cons, IH. Qed.

Lemma str_app_assoc s t u : (s +:+ t) +:+ u = s +:+ (t +:+ u).
Proof. induction s as [|c s IH]; [done|]. by rewrite !str_app_cons, IH. Qed.

Lemma str_forallb_app p s t :
  str_forallb p (s +:+ t) = str_forallb p s && str_forallb p t.
Proof.
  induction s as [|c s IH]; [done|].
  rewrite str_app_cons. simpl. by rewrite IH, andb_assoc.
Qed.

Lemma str_app_eq_nil s t : s +:+ t = "" → s = "" ∧ t = "".
Proof. by destruct s. Qed.

Lemma is_digit_is_word c : is_digit c = true → is_word c = true.
Proof. unfold is_word. by intros ->. Qed.

Lemma sub_numbers_go_digits s cur :
  str_forallb is_digit cur = true → str_forallb is_digit s = true →
  sub_numbers_go cur s = number_or_word (cur +:+ s).
Proof.
  revert cur. induction s as [|c s IH]; intros cur Hcur Hs; simpl.
  - by rewrite str_app_nil_r.
  - simpl in Hs. apply andb_true_iff in Hs as [Hc Hs].
    rewrite (is_digit_is_word c Hc), IH; [|by rewrite str_forallb_app, Hcur; simpl; rewrite Hc|done].
    by rewrite str_app_assoc.
Qed.

Lemma number_or_word_no_digit cur :
  str_forallb (fun c => negb (is_digit c)) cur = true → number_or_word cur = cur.
Proof.
  unfold number_or_word. destruct cur as [|c cur]; [done|]. simpl.
  intros [Hc _]%andb_true_iff.
  apply negb_true_iff in Hc. by rewrite Hc.
Qed.

Lemma sub_numbers_go_no_digit s cur :
  str_forallb (fun c => negb (is_digit c)) cur = true →
  str_forallb (fun c => negb (is_digit c)) s = true →
  sub_numbers_go cur s = cur +:+ s.
Proof.
  revert cur. induction s as [|c s IH]; intros cur Hcur Hs; simpl.
  - by rewrite number_or_word_no_digit, str_app_nil_r.
  - simpl in Hs. apply andb_true_iff in Hs as [Hc Hs].
    destruct (is_word c).
    + rewrite IH; [by rewrite str_app_assoc| |done].
      rewrite str_forallb_app, Hcur. simpl. by rewrite Hc.
    + by rewrite number_or_word_no_digit, (IH "").
Qed.
End text_facts.

(** X8. The tokenizer cannot tell two numbers apart: a non-empty text made
    of digits only is rewritten to [__NUMBER__] before the token pattern is
    applied, so any two such texts give the same tokens, whatever the
    component's settings and state. *)
Theorem X8_numbers_are_tokenized_alike (self : CountVectorsFeaturizer)
    (d1 d2 : string) :
  d1 ≠ "" → str_forallb is_digit d1 = true →
  d2 ≠ "" → str_forallb is_digit d2 = true →
  sub_numbers d1 = "__NUMBER__" ∧
  CountVectors._tokenizer self d1 = CountVectors._tokenizer self d2.
Proof.
  intros Hne1 Hd1 Hne2 Hd2.
  assert (∀ d, d ≠ "" → str_forallb is_digit d = true → sub_numbers d = "__NUMBER__")
    as Hsub.
  { intros d Hne Hd. unfold sub_numbers. rewrite sub_numbers_go_digits by done.
    change ("" +:+ d) with d. unfold number_or_word.
    by rewrite decide_False, Hd. }
  split; [by apply Hsub|].
  unfold CountVectors._tokenizer. by rewrite !Hsub.
Qed.

Lemma X8_numbers_are_tokenized_alike_witness :
  sub_numbers "42" = "__NUMBER__" ∧
  CountVectors._tokenizer (sample_featurizer false false false None []) "42"
  = CountVectors._tokenizer (sample_featurizer false false false None []) "7".
Proof.
  apply X8_numbers_are_tokenized_alike; done.
Defined.

(** X9. The number substitution leaves a text without digits as it is. *)
Theorem X9_sub_numbers_without_digits (text : string) :
  str_forallb (fun c => negb (is_digit c)) text = true → sub_numbers text = text.
Proof. intros Hno. unfold sub_numbers. by rewrite sub_numbers_go_no_digit. Qed.

Lemma X9_sub_numbers_without_digits_witness :
  sub_numbers "fly to new york" = "fly to new york".
Proof. apply X9_sub_numbers_without_digits. reflexivity. Defined.

Section runs_facts.

Lemma runs_go_Forall p cur s :
  str_forallb p cur = true →
  Forall (fun run => run ≠ "" ∧ str_forallb p run = true) (runs_go p cur s).
Proof.
  revert cur. induction s as [|c s IH]; intros cur Hcur; simpl.
  - case_decide; [by constructor|]. by repeat constructor.
  - destruct (p c) eqn:Hc.
    + apply IH. rewrite str_forallb_app, Hcur. simpl. by rewrite Hc.
    + apply Forall_app. split; [|by apply IH].
      case_decide; [by constructor|]. by repeat constructor.
Qed.

Lemma runs_go_word p w cur s :
  str_forallb p w = true → runs_go p cur (w +:+ s) = runs_go p (cur +:+ w) s.
Proof.
  revert cur. induction w as [|c w IH]; intros cur Hw.
  - by rewrite str_app_nil_r.
  - simpl in Hw. apply andb_true_iff in Hw as [Hc Hw].
    rewrite str_app_cons. simpl. rewrite Hc, IH by done.
    by rewrite str_app_assoc.
Qed.

Lemma runs_go_separator p cur c s :
  p c = false → cur ≠ "" → runs_go p cur (String c s) = cur :: runs_go p "" s.
Proof. intros Hc Hne. simpl. by rewrite Hc, decide_False. Qed.

Lemma split_join words :
  Forall (fun w => w ≠ "" ∧ str_forallb (fun c => negb (is_space c)) w = true) words →
  split (join " " words) = words.
Proof.
  unfold split, join. induction 1 as [|w words [Hne Hw] Hall IH]; [done|].
  destruct words as [|w2 words].
  - cbn [String.concat]. rewrite <- (str_app_nil_r w) at 1.
    rewrite runs_go_word by done. simpl. by rewrite decide_False.
  - change (String.concat " " (w :: w2 :: words))
      with (w +:+ String " " (String.concat " " (w2 :: words))).
    rewrite runs_go_word by done.
    rewrite runs_go_separator by done. by rewrite IH.
Qed.
End runs_facts.

(** X10. For a text within ASCII, the sub-strings that [_get_text_sequence]
    cuts out of it are never empty and never contain white space, and the
    tokens found by the default token pattern have at least two characters,
    all of them ASCII letters, digits or underscores. *)
Theorem X10_tokens_are_clean (text : string) :
  ascii_text text = true →
  Forall (fun t => t ≠ "" ∧ str_forallb (fun c => negb (is_space c)) t = true)
         (CountVectors._get_text_sequence text) ∧
  Forall (fun t => 2 ≤ String.length t ∧ str_forallb is_word t = true)
         (default_token_pattern text).
Proof.
  intros _. split.
  - by apply runs_go_Forall.
  - unfold default_token_pattern. apply Forall_forall.
    intros t [Hlen Hin]%list_elem_of_filter. split; [done|].
    pose proof (runs_go_Forall is_word "" text eq_refl) as Hall.
    rewrite Forall_forall in Hall. by apply Hall.
Qed.

Lemma X10_tokens_are_clean_witness :
  Forall (fun t => t ≠ "" ∧ str_forallb (fun c => negb (is_space c)) t = true)
         (CountVectors._get_text_sequence "fly to  new york") ∧
  Forall (fun t => 2 ≤ String.length t ∧ str_forallb is_word t = true)
         (default_token_pattern "fly to a_1, b").
Proof.
  split.
  - apply (X10_tokens_are_clean "fly to  new york"). reflexivity.
  - apply (X10_tokens_are_clean "fly to a_1, b"). reflexivity.
Defined.

(** X11. Sequence mode sees the tokens of a message again: when a message
    has no lemmatized document but a non-empty token list whose texts are
    within ASCII, non-empty and free of white space, splitting the text that
    [_get_message_text] builds returns exactly the token texts, one
    sub-string per token. *)
Theorem X11_text_sequence_of_message_tokens (message : Message) (toks : list Token) :
  truthy (spacy_doc message) = false →
  tokens message = Some toks → toks ≠ [] →
  Forall (fun t => ascii_text (text t) = true) toks →
  Forall (fun t => text t ≠ "" ∧
                   str_forallb (fun c => negb (is_space c)) (text t) = true) toks →
  CountVectors._get_text_sequence (CountVectors._get_message_text message)
  = text <$> toks.
Proof.
  intros Hdoc Htoks Hne _ Hall.
  unfold CountVectors._get_text_sequence, CountVectors._get_message_text.
  rewrite Hdoc, Htoks. destruct toks as [|t toks]; [done|].
  cbn [truthy default]. apply split_join. by apply Forall_fmap.
Qed.

Lemma X11_text_sequence_of_message_tokens_witness :
  CountVectors._get_text_sequence
    (CountVectors._get_message_text (ex_message sample_annotated))
  = ["fly"; "to"; "new"; "york"; "city"].
Proof.
  apply (X11_text_sequence_of_message_tokens (ex_message sample_annotated) sample_tokens);
    [done..| |].
  - repeat constructor; done.
  - repeat constructor; done.
Defined.

(** ** Out-of-vocabulary handling *)

(** X12. With a marker configured, the tokenizer of a component with one
    fitted, shared vectorizer whose vocabulary contains the marker only
    returns vocabulary entries; and the tokenizer of a component without a
    fitted shared vectorizer returns none of the listed out-of-vocabulary
    words, except the marker itself when it is listed. *)
Theorem X12_tokenizer_oov_postconditions (self : CountVectorsFeaturizer)
    (text oov : string) :
  truthy_str (OOV_token self) = Some oov →
  (∀ vocabulary_,
     vect self = VShared (Some vocabulary_) → oov ∈ vocabulary_ →
     Forall (fun t => t ∈ vocabulary_) (CountVectors._tokenizer self text)) ∧
  (CountVectors.vect_vocabulary_ (vect self) = None →
   Forall (fun t => t ∉ OOV_words self ∨ t = oov) (CountVectors._tokenizer self text)).
Proof.
  intros Hoov. split.
  - intros vocabulary_ Hv Hin.
    rewrite (tokenizer_shared_fitted self oov vocabulary_ text Hoov Hv).
    rewrite decide_True by done. apply Forall_fmap, Forall_forall.
    intros t _. simpl. by case_decide.
  - intros Hv. rewrite (tokenizer_unfitted self oov text Hoov Hv).
    apply Forall_fmap, Forall_forall. intros t _. simpl.
    case_decide; [by right|by left].
Qed.

Lemma X12_tokenizer_oov_postconditions_witness :
  let self := sample_trained (sample_featurizer false true false (Some "oov") []) in
  ∃ vocabulary_,
    vect self = VShared (Some vocabulary_) ∧
    Forall (fun t => t ∈ vocabulary_) (CountVectors._tokenizer self "hello friend").
Proof.
  intros self.
  destruct (X12_tokenizer_oov_postconditions self "hello friend" "oov" eq_refl)
    as [Hshared _].
  eexists. split; [by vm_compute|].
  apply Hshared; [by vm_compute|compute_done].
Defined.

Section load_OOV_facts.

Lemma lower_char_idempotent (c : ascii) :
  let f := fun c => let n := nat_of_ascii c in
                    if (65 <=? n)%nat && (n <=? 90)%nat then ascii_of_nat (n + 32) else c in
  f (f c) = f c.
Proof. destruct c as [[] [] [] [] [] [] [] []]; reflexivity. Qed.

Lemma lower_idempotent s : lower (lower s) = lower s.
Proof.
  unfold lower. induction s as [|c s IH]; [done|].
  cbn [str_map]. f_equal; [apply lower_char_idempotent|exact IH].
Qed.

Lemma lower_eq_nil s : lower s = "" → s = "".
Proof. by destruct s. Qed.
End load_OOV_facts.

(** X13. After [_load_OOV_params], a non-empty list of out-of-vocabulary
    words always comes with a marker (a list given without one is dropped),
    and with [lowercase] set the marker and the words are in lower case; the
    other settings and the vectorizers are untouched. *)
Theorem X13_load_OOV_params (self : CountVectorsFeaturizer) :
  let self' := CountVectors._load_OOV_params self in
  (OOV_words self' ≠ [] → is_Some (truthy_str (OOV_token self'))) ∧
  (truthy_str (OOV_token self) = None → OOV_words self' = []) ∧
  (lowercase self = true →
   Forall (fun w => lower w = w) (OOV_words self') ∧
   ∀ oov, truthy_str (OOV_token self') = Some oov → lower oov = oov) ∧
  (lowercase self = false → OOV_token self' = OOV_token self) ∧
  sequence self' = sequence self ∧ use_shared_vocab self' = use_shared_vocab self ∧
  sparse self' = sparse self ∧ lowercase self' = lowercase self ∧
  vect self' = vect self.
Proof.
  unfold CountVectors._load_OOV_params, truthy_str.
  destruct self as [sq sh sp tp lc [oov|] ws fl v lg]; cbn.
  - destruct (decide (oov = "")) as [->|Hne]; cbn.
    + destruct ws as [|w ws]; cbn; destruct lc; cbn; by split_and!.
    + assert (lower oov ≠ "") as Hlne by (intros ?%lower_eq_nil; done).
      destruct ws as [|w ws]; cbn; rewrite ?decide_False by done; cbn;
        destruct lc; cbn; rewrite ?decide_False by done.
      all: split_and!; try done; try (by eexists).
      all: intros _; split;
        [ first [ by constructor
                | apply Forall_cons; split;
                  [apply lower_idempotent
                  |apply Forall_fmap, Forall_forall; intros; apply lower_idempotent] ]
        | intros ? [= <-]; apply lower_idempotent ].
  - destruct ws as [|w ws]; cbn; destruct lc; cbn; split_and!; done.
Qed.

(** ** Training and prediction *)


(** X15. A call of [train] that returns changes nothing on the examples
    but their three feature fields, and it featurizes all of them or none:
    when the component is left without a vectorizer the examples are as they
    were, and otherwise every example carries text, intent and response
    features. *)
Theorem X15_train_featurizes_all_or_nothing `{External}
    (self self' : CountVectorsFeaturizer) (intent_examples examples' : list Message)
    (spacy_nlp : option (string → list SpacyToken)) :
  CountVectors.train self intent_examples spacy_nlp = Ok (self', examples') →
  Forall2 same_but_features intent_examples examples' ∧
  (vect self' = VNone → examples' = intent_examples) ∧
  (vect self' ≠ VNone →
   Forall (fun m => is_Some (text_features m) ∧ is_Some (intent_features m) ∧
                    is_Some (response_features m)) examples').
Proof. apply train_featurizes_all_or_nothing. Qed.

Lemma X15_train_featurizes_all_or_nothing_witness :
  let self := sample_featurizer true false false None [] in
  Forall2 same_but_features sample_training_data (train_outcome self sample_training_data).2.
Proof.
  intros self.
  apply (X15_train_featurizes_all_or_nothing (H := CountVectors.default_external true 1)
           self (train_outcome self sample_training_data).1 sample_training_data
           (train_outcome self sample_training_data).2 None).
  by vm_compute.
Defined.

(** X16. Outside sequence mode, take the component that a successful
    [train] returned and a message equal to one of the training examples as it
    was before that call ([train] itself overwrites the features of the
    example it is given). Unless the mode is dense and the vocabulary of the
    message texts has exactly one term, [process] on that message returns
    without changing the component and gives it the text features that
    [train] gave the example. *)
Theorem X16_process_keeps_training_features `{External}
    (self self' : CountVectorsFeaturizer) (intent_examples examples' : list Message)
    (spacy_nlp : option (string → list SpacyToken)) (i : nat) (example : Message) :
  sequence self = false →
  CountVectors.train self intent_examples spacy_nlp = Ok (self', examples') →
  vect self' ≠ VNone →
  intent_examples !! i = Some example →
  (sparse self = true ∨
   ∀ vocabulary_, CountVectors.select_vect self' 0 = Ok vocabulary_ →
                  length vocabulary_ ≠ 1) →
  ∃ example' message',
    examples' !! i = Some example' ∧
    CountVectors.process self' example None = Ok (self', message', None) ∧
    text_features message' = text_features example'.
Proof.
  intros Hseq Htrain Hvect Hi Hshape.
  destruct (train_success _ _ _ _ _ Htrain Hvect)
    as (self3 & lem_ints & X & Y_ints & Y_resps & Hsame & _ & Hfc & Hset).
  pose proof (fit_channels_vect _ _ _ _ _ _ _ _ Hfc) as [(Hseq' & _ & Hsp' & _) _].
  destruct (train_init_settings self spacy_nlp) as (Hseq0 & _ & Hsp0).
  pose proof Hsame as (Hseq3 & _ & Hsp3 & _).
  assert (sequence self3 = false) as Hseq3f by congruence.
  assert (sequence self' = false) as Hseq'f by congruence.
  assert (sparse self' = sparse self) as Hsp'' by congruence.
  apply fit_channels_shape in Hfc
      as (_ & _ & _ & vocabulary_0 & vocabulary_1 & Hsel & _ & HX).
  2:{ destruct Hsame as (_ & _ & _ & _ & _ & _ & ->). apply train_init_unfitted. }
  specialize (HX Hseq3f).
  destruct (proj2 (mapM_result_lookup _ _ _ Hset) i (i, example)
              (lookup_enumerate _ _ _ Hi)) as (example' & Hex & Hfe).
  apply set_example_features_Ok in Hfe as (x & f & yi & yr & Hx & _ & _ & Hf & ->).
  rewrite HX, list_lookup_fmap in Hx. unfold CountVectors.transform in Hx.
  rewrite list_lookup_fmap, list_lookup_fmap, Hi in Hx. simpl in Hx.
  injection Hx as <-.
  pose proof (process_after_fit self' vocabulary_0 example Hvect Hsel) as Hp.
  cbn zeta in Hp. rewrite Hseq'f in Hp, Hf. cbn [negb andb] in Hp, Hf.
  assert (sparse self3 = sparse self') as Hsp3' by congruence.
  rewrite Hsp3' in Hf.
  destruct (sparse self') eqn:Hsparse; cbn [negb] in Hp, Hf.
  - destruct Hp as (f' & Hp & Hf'). specialize (Hf' eq_refl). subst f'.
    injection Hf as <-.
    eexists _, _. split_and!; [done..|]. done.
  - destruct Hshape as [?|Hshape]; [congruence|].
    specialize (Hshape vocabulary_0 Hsel).
    assert (CountVectors.squeeze_row
              (CountVectors.transform_row self' vocabulary_0
                 (CountVectors._get_message_text example))
            = Dense (CountVectors.transform_row self' vocabulary_0
                       (CountVectors._get_message_text example))) as Hsq.
    { pose proof (length_transform_row self' vocabulary_0
                    (CountVectors._get_message_text example)) as Hlen.
      by destruct (CountVectors.transform_row _ _ _) as [|z [|z' row]]. }
    rewrite Hsq, Hf in Hp.
    eexists _, _. split_and!; [done..|]. done.
Qed.

Lemma X16_process_keeps_training_features_witness :
  let self := sample_featurizer false true false (Some "oov") [] in
  let trained := train_outcome self sample_training_data in
  ∃ example' message',
    trained.2 !! 1 = Some example' ∧
    CountVectors.process (H := CountVectors.default_external true 1) trained.1
      (sample_example "bye now 7 oov" ["leave"] ["see"; "you"]) None
    = Ok (trained.1, message', None) ∧
    text_features message' = text_features example'.
Proof.
  intros self trained.
  apply (X16_process_keeps_training_features (H := CountVectors.default_external true 1)
           self trained.1 sample_training_data trained.2 None 1
           (sample_example "bye now 7 oov" ["leave"] ["see"; "you"]));
    try (by vm_compute).
  right. intros vocabulary_ Hsel. vm_compute in Hsel. by injection Hsel as <-.
Defined.

(** X17. With the component returned by [train], [process] without test
    data raises only in dense non-sequence mode with fitted vectorizers, with
    the error that the feature helper of the base class raises for the
    message. Whenever it returns, it returns [None], keeps the vectorizers and
    leaves every field of the message but [text_features] alone; without a
    vectorizer the message is unchanged, and otherwise the component is
    unchanged and the message carries text features. *)
Theorem X17_process_after_train `{External}
    (self self' : CountVectorsFeaturizer) (intent_examples examples' : list Message)
    (spacy_nlp : option (string → list SpacyToken)) (message : Message) :
  CountVectors.train self intent_examples spacy_nlp = Ok (self', examples') →
  match CountVectors.process self' message None with
  | Ok (self'', message', returned) =>
      returned = None ∧ vect self'' = vect self' ∧
      same_but_features message message' ∧
      intent_features message' = intent_features message ∧
      response_features message' = response_features message ∧
      (if vect self' is VNone then message' = message
       else self'' = self' ∧ is_Some (text_features message'))
  | Raise e =>
      vect self' ≠ VNone ∧ sequence self' = false ∧ sparse self' = false ∧
      ∃ bag, _combine_with_existing_text_features message bag = Raise e
  end.
Proof.
  intros Htrain.
  destruct (vect self') eqn:Hv.
  { destruct (process_untrained self' message None Hv) as (s' & -> & Hv' & _).
    by split_and!. }
  all: assert (vect self' ≠ VNone) as Hvect by (by rewrite Hv).
  all: destruct (train_success _ _ _ _ _ Htrain Hvect)
         as (self3 & lem_ints & X & Y_ints & Y_resps & Hsame & _ & Hfc & _).
  all: apply fit_channels_shape in Hfc as (_ & _ & _ & v0 & v1 & Hsel & _);
    [|destruct Hsame as (_ & _ & _ & _ & _ & _ & ->); apply train_init_unfitted].
  all: pose proof (process_after_fit self' v0 message Hvect Hsel) as Hp; cbn zeta in Hp.
  all: destruct (sequence self') eqn:Hseq, (sparse self') eqn:Hsp; cbn [negb andb] in Hp.
  all: try (destruct Hp as (f & -> & _); rewrite Hv; by split_and!).
  all: rewrite Hp;
    destruct (_combine_with_existing_text_features message _) as [f|e] eqn:Hf.
  all: try (rewrite Hv; by split_and!).
  all: split_and!; [done..|by eexists].
Qed.

Lemma X17_process_after_train_witness :
  let self := sample_featurizer true false true None [] in
  let self' := (train_outcome self sample_training_data).1 in
  ∃ self'' message',
    CountVectors.process (H := CountVectors.default_external true 1)
      self' (bare_message "hello there") None = Ok (self'', message', None) ∧
    vect self'' = vect self' ∧
    same_but_features (bare_message "hello there") message'.
Proof.
  intros self self'.
  pose proof (X17_process_after_train (H := CountVectors.default_external true 1)
                self self' sample_training_data
                (train_outcome self sample_training_data).2 None
                (bare_message "hello there") ltac:(by vm_compute)) as Hp.
  destruct (CountVectors.process self' (bare_message "hello there") None)
    as [[[self'' message'] returned]|e] eqn:Hproc.
  - destruct Hp as (-> & Hv & Hframe & _).
    exists self'', message'. exact (conj eq_refl (conj Hv Hframe)).
  - exfalso. destruct Hp as (_ & Hseq & _). vm_compute in Hseq. discriminate.
Defined.

(** X18. Test data is featurized once: a call of [process] with test data on
    a component that has a vectorizer returns the featurized examples, which
    differ from the given ones only in their intent and response features,
    exactly when the flag [is_test_data_featurized] was not set; every later
    call of [process] returns [None], keeps the flag set and keeps the
    vectorizers. *)
Theorem X18_test_data_is_featurized_once `{External}
    (self self1 : CountVectorsFeaturizer) (message message1 : Message)
    (test_data : list Message) (r1 : option (list Message)) :
  CountVectors.process self message (Some test_data) = Ok (self1, message1, r1) →
  vect self ≠ VNone →
  (if is_test_data_featurized self then r1 = None
   else ∃ test_data',
          r1 = Some test_data' ∧
          Forall2 (fun m m' => same_but_features m m' ∧
                               text_features m' = text_features m ∧
                               is_Some (intent_features m') ∧
                               is_Some (response_features m'))
            test_data test_data') ∧
  ∀ message2 test_data2 self2 message2' r2,
    CountVectors.process self1 message2 test_data2 = Ok (self2, message2', r2) →
    r2 = None ∧ is_test_data_featurized self2 = true ∧ vect self2 = vect self.
Proof.
  intros Hp Hvect.
  destruct (process_flag _ _ _ _ _ _ Hp) as (Hv1 & Hset & Hunset).
  assert (is_test_data_featurized self1 = true) as Hflag1.
  { destruct (is_test_data_featurized self) eqn:Hflag; [by apply Hset|].
    by apply Hunset. }
  split.
  - destruct (is_test_data_featurized self) eqn:Hflag; [by apply Hset|].
    by apply Hunset.
  - intros message2 test_data2 self2 message2' r2 Hp2.
    destruct (process_flag _ _ _ _ _ _ Hp2) as (Hv2 & Hset2 & _).
    destruct (Hset2 Hflag1) as [-> ->]. split_and!; [done..|congruence].
Qed.

Lemma X18_test_data_is_featurized_once_witness :
  let self := sample_trained (sample_featurizer false true false None []) in
  let out := process_test_outcome self (bare_message "hello world") sample_training_data in
  is_test_data_featurized self = false ∧
  (∃ test_data', out.2 = Some test_data' ∧ length test_data' = 2) ∧
  ∀ message2 test_data2 self2 message2' r2,
    CountVectors.process (H := CountVectors.default_external true 1)
      out.1.1 message2 test_data2 = Ok (self2, message2', r2) →
    r2 = None ∧ is_test_data_featurized self2 = true ∧ vect self2 = vect self.
Proof.
  intros self out.
  destruct (X18_test_data_is_featurized_once (H := CountVectors.default_external true 1)
              self out.1.1 (bare_message "hello world") out.1.2
              sample_training_data out.2) as [Hfirst Hlater].
  { by vm_compute. }
  { by vm_compute. }
  assert (is_test_data_featurized self = false) as Hflag by (by vm_compute).
  rewrite Hflag in Hfirst. destruct Hfirst as (test_data' & Hr & Hall).
  split_and!; [done| |done].
  exists test_data'. split; [done|].
  apply Forall2_length in Hall. by rewrite <- Hall.
Defined.
